(** * moize: instance facade and option utilities

    A shallow embedding of [src/utils.js] (combine, compose,
    findExpirationIndex, createFindKeyIndex, mergeOptions) and of the
    instance methods installed by [addInstanceMethods], followed by the
    properties of the cache store, the key matcher and the option merge. *)

From Stdlib Require Import ZArith Lia.
From stdpp Require Import base list strings gmap.

Open Scope Z_scope.

(** ** JavaScript values as the code sees them *)

Module Js.

(** A JavaScript value that is not a function.  Objects and arrays are
    references: two of them are [===] exactly when they are the same
    allocation. *)
Inductive Value : Type :=
| VUndefined
| VNull
| VBool (b : bool)
| VNum (n : Z)
| VNaN
| VStr (s : string)
| VRef (ref : nat).

#[global] Instance Value_eq_dec : EqDecision Value.
Proof. solve_decision. Defined.

(** [a === b] on values: [NaN] is equal to nothing, itself included. *)
Definition strictEquals (a b : Value) : bool :=
  match a with
  | VNaN => false
  | _ => bool_decide (a = b)
  end.

(** A key is an [Array<any>]: an array object with its own identity
    ([key_ref]) and its elements. *)
Record Key : Type := { key_ref : nat; key_items : list Value }.

(** [a === b] on two array objects: reference identity. *)
Definition sameObject (a b : Key) : bool := Nat.eqb (key_ref a) (key_ref b).

(** [key[index]]: reading past the end gives [undefined]. *)
Definition item (k : Key) (index : nat) : Value :=
  default VUndefined (key_items k !! index).

(** [key.length] *)
Definition len (k : Key) : nat := length (key_items k).

(** [~n] on an index, and the truthiness of a number. *)
Definition bitNot (n : Z) : Z := Z.lnot n.
Definition truthy (n : Z) : bool := negb (n =? 0).

End Js.

Import Js.

(** The [Expiration] type of [./types], as the tests build it:
    [{expirationMethod, key, timeoutId}]. *)
Module Expiration.
Record t : Type := { expirationMethod : nat; key : Key; timeoutId : nat }.
End Expiration.

(** ** utils.js: key and expiration lookup *)

Module Utils.

(** [findExpirationIndex]: the loop from [index] on, over the records not
    yet visited. *)
Fixpoint findExpirationIndex_from (expirations : list Expiration.t) (key : Key)
    (index : Z) : Z :=
  match expirations with
  | [] => -1
  | e :: rest =>
      if sameObject (Expiration.key e) key then index
      else findExpirationIndex_from rest key (index + 1)
  end.

Definition findExpirationIndex (expirations : list Expiration.t) (key : Key) : Z :=
  findExpirationIndex_from expirations key 0.

(** The default [areKeysEqual] of [createFindKeyIndex]: the loop over
    [index < key.length], [n] iterations left. *)
Fixpoint areKeysEqual_from (isEqual : Value -> Value -> bool) (cacheKey key : Key)
    (index n : nat) : bool :=
  match n with
  | O => true
  | S n' =>
      if negb (isEqual (item cacheKey index) (item key index)) then false
      else areKeysEqual_from isEqual cacheKey key (S index) n'
  end.

(** [areKeysEqual]: the custom matcher when [isMatchingKey] is a function
    ([Some]), the element-wise loop otherwise. *)
Definition areKeysEqual (isEqual : Value -> Value -> bool)
    (isMatchingKey : option (Key -> Key -> bool)) (cacheKey key : Key) : bool :=
  match isMatchingKey with
  | Some matcher => matcher cacheKey key
  | None => areKeysEqual_from isEqual cacheKey key 0 (len key)
  end.

(** The function returned by [createFindKeyIndex]: the loop from
    [keysIndex] on. *)
Fixpoint findKeyIndex_from (isEqual : Value -> Value -> bool)
    (isMatchingKey : option (Key -> Key -> bool))
    (keys : list Key) (key : Key) (keysIndex : Z) : Z :=
  match keys with
  | [] => -1
  | cacheKey :: rest =>
      if Nat.eqb (len cacheKey) (len key) then
        if areKeysEqual isEqual isMatchingKey cacheKey key then keysIndex
        else findKeyIndex_from isEqual isMatchingKey rest key (keysIndex + 1)
      else findKeyIndex_from isEqual isMatchingKey rest key (keysIndex + 1)
  end.

Definition createFindKeyIndex (isEqual : Value -> Value -> bool)
    (isMatchingKey : option (Key -> Key -> bool)) : list Key -> Key -> Z :=
  fun keys key => findKeyIndex_from isEqual isMatchingKey keys key 0.

(** The condition under which the scan stops at a stored key: the active
    key matcher. *)
Definition matchesKey (isEqual : Value -> Value -> bool)
    (isMatchingKey : option (Key -> Key -> bool)) (cacheKey key : Key) : bool :=
  Nat.eqb (len cacheKey) (len key) && areKeysEqual isEqual isMatchingKey cacheKey key.


(** *** combine, compose and mergeOptions *)

Section Functions.

(** The state of everything a JavaScript function can touch. *)
Variable World : Type.

(** A function value: called with [this] and its [arguments], it changes
    the world and returns a value. *)
Definition Func : Type := Value -> list Value -> World -> Value * World.

(** An [any]: a function ([typeof x === 'function']) or another value. *)
Inductive Any : Type :=
| Fn (f : Func)
| NotFn (v : Value).

(** [typeof x === 'function'] *)
Definition isFunction (x : Any) : bool :=
  match x with Fn _ => true | NotFn _ => false end.

(** The closure that [combine]'s reducer builds from two functions: [g]
    is applied first, then [f], both to [this] and [arguments]; nothing
    is returned. *)
Definition combined (f g : Func) : Func :=
  fun this arguments w =>
    let w1 := snd (g this arguments w) in
    let w2 := snd (f this arguments w1) in
    (VUndefined, w2).

(** The closure that [compose]'s reducer builds: [f(g.apply(this, arguments))]. *)
Definition composed (f g : Func) : Func :=
  fun this arguments w =>
    let '(result, w1) := g this arguments w in
    f VUndefined [result] w1.

(** The reducer, over the way two functions are joined. *)
Definition reducer (join : Func -> Func -> Func) (f g : Any) : Any :=
  match f with
  | Fn f' => match g with Fn g' => Fn (join f' g') | NotFn _ => f end
  | NotFn _ => match g with Fn _ => g | NotFn _ => NotFn VUndefined end
  end.

(** [array.reduce(callback)] without an initial value, on a non-empty
    array: the first element is the initial accumulator, and the
    callback runs on the second element onwards. *)
Definition reduce (callback : Any -> Any -> Any) (first : Any) (rest : list Any) : Any :=
  fold_left callback rest first.

Definition combine (functions : list Any) : Any :=
  match functions with
  | [] => NotFn VUndefined
  | first :: rest => reduce (reducer combined) first rest
  end.

Definition compose (functions : list Any) : Any :=
  match functions with
  | [] => NotFn VUndefined
  | first :: rest => reduce (reducer composed) first rest
  end.

(** An options object: its identity and its own properties. *)
Record Options : Type := { options_ref : nat; options_props : gmap string Any }.

(** [options.name]: a missing property reads as [undefined]. *)
Definition prop (options : Options) (name : string) : Any :=
  default (NotFn VUndefined) (options_props options !! name).

(** [Object.assign({}, a, b, c)]: later sources win. *)
Definition assign3 (a b c : gmap string Any) : gmap string Any := c ∪ (b ∪ a).

(** [DEFAULT_OPTIONS] of [./constants]. *)
Variable DEFAULT_OPTIONS : Options.

(** [mergeOptions]; [fresh] is the identity of the object that
    [Object.assign({}, ...)] allocates. *)
Definition mergeOptions (fresh : nat) (originalOptions newOptions : Options) : Options :=
  if Nat.eqb (options_ref newOptions) (options_ref DEFAULT_OPTIONS) then originalOptions
  else
    {| options_ref := fresh;
       options_props :=
         assign3 (options_props originalOptions) (options_props newOptions)
           (<["onCacheAdd" :=
                combine [prop originalOptions "onCacheAdd"; prop newOptions "onCacheAdd"]]>
            (<["onCacheChange" :=
                combine [prop originalOptions "onCacheChange"; prop newOptions "onCacheChange"]]>
            (<["onCacheHit" :=
                combine [prop originalOptions "onCacheHit"; prop newOptions "onCacheHit"]]>
            (<["transformArgs" :=
                compose [prop originalOptions "transformArgs"; prop newOptions "transformArgs"]]>
             ∅)))) |}.

End Functions.

Arguments Fn {World} f.
Arguments NotFn {World} v.
Arguments isFunction {World} x.
Arguments reducer {World} join f g.
Arguments combined {World} f g.
Arguments composed {World} f g.
Arguments combine {World} functions.
Arguments compose {World} functions.
Arguments prop {World} options name.
Arguments options_ref {World} o.
Arguments options_props {World} o.
Arguments mergeOptions {World} DEFAULT_OPTIONS fresh originalOptions newOptions.

End Utils.

(** ** instance.js: the methods added to a memoized function *)

Module Instance.

(** [moized.cache]: the key and value arrays of the memoization engine. *)
Record Cache : Type := { keys : list Key; values : list Value }.

(** Modelled from the spec: the [size] count of the engine's cache object,
    whose code is not part of the sources; it is the number of stored keys
    ([size == len(keys)]). *)
#[global] Instance size : Size Cache := fun cache => length (keys cache).

(** [options.maxSize]: unset, a count, or [Infinity]. *)
Inductive MaxSize : Type :=
| MaxUndefined
| MaxNum (n : nat)
| MaxInfinity.

(** [size >= maxSize]; against [undefined] the comparison is false. *)
Definition reaches (size : nat) (maxSize : MaxSize) : bool :=
  match maxSize with
  | MaxUndefined => false
  | MaxNum n => (n <=? size)%nat
  | MaxInfinity => false
  end.

(** [moized.options], the fields the instance methods read.  The two
    callbacks [onCacheAdd] and [onCacheChange] are host functions; their
    calls are recorded in the trace of each method. *)
Record Options : Type := {
  isEqual : Value -> Value -> bool;
  isMatchingKey : option (Key -> Key -> bool);
  maxSize : MaxSize;
  profileName : option string;
  transformKey : option (Key -> Key)
}.

(** The memoized function object: its cache, its options and the list of
    expirations it exposes as [moized.expirations]. *)
Record Moized : Type := {
  cache : Cache;
  options : Options;
  expirations : list Expiration.t
}.

(** A call of a lifecycle callback with its three arguments
    [(moized.cache, moized.options, moized)] as they are at the call.  The
    callbacks are functions of the host: a method records the calls it
    makes, and what a callback does in its turn is not part of the method. *)
Inductive Call : Type :=
| onCacheAdd (cache : Cache) (options : Options) (moized : Moized)
| onCacheChange (cache : Cache) (options : Options) (moized : Moized).

(** Modelled from the spec: the [StatsProfile] type of [./types], the
    [calls] and [hits] counters of a profile (the usage percentage is
    derived from the two). *)
Record StatsProfile : Type := { stats_calls : nat; stats_hits : nat }.

(** What a method returns. *)
Inductive Returned : Type :=
| RValue (v : Value)
| RArrays (ks : list Key)
| RValues (vs : list Value)
| RStats (s : StatsProfile).

(** The result of a method call: the returned value, the memoized
    function afterwards, and the callbacks called, in order. *)
Record Outcome : Type := {
  returned : Returned;
  after : Moized;
  calls : list Call
}.

Section Methods.

(** [getStats] of [./stats]. *)
Variable getStats : option string -> StatsProfile.

(** The memoized function itself, [moized.apply(this, key)]: the
    memoization engine. *)
Variable apply : Key -> Moized -> Outcome.

(** The constants destructured from [moized.options] when the methods
    are installed (line 26). *)
Variable installed : Options.

Definition findKeyIndex : list Key -> Key -> Z :=
  Utils.createFindKeyIndex (isEqual installed) (isMatchingKey installed).

(** [transformKey ? transformKey(key) : key] *)
Definition transformed (key : Key) : Key :=
  match transformKey installed with
  | Some f => f key
  | None => key
  end.

Definition withCache (moized : Moized) (c : Cache) : Moized :=
  {| cache := c; options := options moized; expirations := expirations moized |}.

Definition add (key : Key) (value : Value) (moized : Moized) : Outcome :=
  let savedKey := transformed key in
  if negb (truthy (bitNot (findKeyIndex (keys (cache moized)) savedKey))) then
    let popped :=
      if reaches (base.size (cache moized)) (maxSize (options moized)) then
        {| keys := removelast (keys (cache moized));
           values := removelast (values (cache moized)) |}
      else cache moized in
    let unshifted :=
      {| keys := savedKey :: keys popped; values := value :: values popped |} in
    let moized' := withCache moized unshifted in
    {| returned := RValue VUndefined;
       after := moized';
       calls := [onCacheAdd (cache moized') (options moized') moized';
                 onCacheChange (cache moized') (options moized') moized'] |}
  else
    {| returned := RValue VUndefined; after := moized; calls := [] |}.

Definition clear (moized : Moized) : Outcome :=
  let moized' := withCache moized {| keys := []; values := [] |} in
  {| returned := RValue VUndefined;
     after := moized';
     calls := [onCacheChange (cache moized') (options moized') moized'] |}.

Definition get (key : Key) (moized : Moized) : Outcome :=
  let keyIndex := findKeyIndex (keys (cache moized)) (transformed key) in
  if truthy (bitNot keyIndex) then
    match keys (cache moized) !! Z.to_nat keyIndex with
    | Some stored => apply stored moized
    | None => {| returned := RValue VUndefined; after := moized; calls := [] |}
    end
  else {| returned := RValue VUndefined; after := moized; calls := [] |}.

Definition getStats_method (moized : Moized) : Outcome :=
  {| returned := RStats (getStats (profileName (options moized)));
     after := moized; calls := [] |}.

Definition has (key : Key) (moized : Moized) : Outcome :=
  {| returned :=
       RValue (VBool (truthy (bitNot
         (findKeyIndex (keys (cache moized)) (transformed key)))));
     after := moized; calls := [] |}.

(** Modelled from the spec: [moized.cacheSnapshot] belongs to the
    memoization engine; it holds independent copies of the two
    sequences of the cache. *)
Definition cacheSnapshot (moized : Moized) : Cache :=
  {| keys := keys (cache moized); values := values (cache moized) |}.

Definition keys_method (moized : Moized) : Outcome :=
  {| returned := RArrays (keys (cacheSnapshot moized)); after := moized; calls := [] |}.

Definition remove (key : Key) (moized : Moized) : Outcome :=
  let keyIndex := findKeyIndex (keys (cache moized)) (transformed key) in
  if truthy (bitNot keyIndex) then
    let spliced :=
      {| keys := delete (Z.to_nat keyIndex) (keys (cache moized));
         values := delete (Z.to_nat keyIndex) (values (cache moized)) |} in
    let moized' := withCache moized spliced in
    {| returned := RValue VUndefined;
       after := moized';
       calls := [onCacheChange (cache moized') (options moized') moized'] |}
  else
    {| returned := RValue VUndefined; after := moized; calls := [] |}.

Definition values_method (moized : Moized) : Outcome :=
  {| returned := RValues (values (cacheSnapshot moized)); after := moized; calls := [] |}.

(** The object literal given to [Object.assign(moized, {...})]: the
    property names and the methods they name, in source order. *)
Inductive Method : Type :=
| Add | Clear | Get | GetStats | Has | Keys | Remove | Values.

Definition instanceMethods : list (string * Method) :=
  [("add", Add); ("clear", Clear); ("get", Get); ("getStats", GetStats);
   ("has", Has); ("keys", Keys); ("remove", Remove); ("values", Values)].

(** [moized[name]] among the properties that [addInstanceMethods]
    defines; [None] is [undefined]. *)
Definition property (name : string) : option Method :=
  snd <$> List.find (fun entry => String.eqb (fst entry) name) instanceMethods.

Definition run (method : Method) (key : Key) (value : Value) (moized : Moized) : Outcome :=
  match method with
  | Add => add key value moized
  | Clear => clear moized
  | Get => get key moized
  | GetStats => getStats_method moized
  | Has => has key moized
  | Keys => keys_method moized
  | Remove => remove key moized
  | Values => values_method moized
  end.

(** [moized[name](key, value)]: calling a property that is [undefined]
    throws a [TypeError] and changes nothing. *)
Inductive Completion : Type :=
| Normal (outcome : Outcome)
| TypeError.

Definition invoke (name : string) (key : Key) (value : Value) (moized : Moized) : Completion :=
  match property name with
  | Some method => Normal (run method key value moized)
  | None => TypeError
  end.

(** A sequence of [add] calls, threading the memoized function. *)
Definition addAll (entries : list (Key * Value)) (moized : Moized) : Moized :=
  fold_left (fun m entry => after (add (fst entry) (snd entry) m)) entries moized.

End Methods.

End Instance.

(** ** Concrete keys, options and caches used in the examples *)

Module Samples.

Import Instance.

Definition keyA : Key := {| key_ref := 1; key_items := [VStr "a"] |}.
Definition keyB : Key := {| key_ref := 2; key_items := [VStr "b"] |}.
Definition keyC : Key := {| key_ref := 3; key_items := [VStr "c"] |}.

(** A second array [["a"]], distinct from [keyA]. *)
Definition keyA' : Key := {| key_ref := 5; key_items := [VStr "a"] |}.


(** Options with strict equality, no matcher, no key transform. *)
Definition strictOptions (limit : MaxSize) : Options :=
  {| isEqual := strictEquals; isMatchingKey := None; maxSize := limit;
     profileName := None; transformKey := None |}.

Definition emptyCache : Cache := {| keys := []; values := [] |}.

Definition fresh (limit : MaxSize) : Moized :=
  {| cache := emptyCache; options := strictOptions limit; expirations := [] |}.

(** The expiration record of the tests for [keyA]. *)
Definition expirationA : Expiration.t :=
  {| Expiration.expirationMethod := 7; Expiration.key := keyA; Expiration.timeoutId := 1 |}.

(** A full cache of one entry, [keyA], with its expiration armed. *)
Definition fullOfA : Moized :=
  {| cache := {| keys := [keyA]; values := [VNum 1] |};
     options := strictOptions (MaxNum 1);
     expirations := [expirationA] |}.

(** A callback that appends its tag to a log, the world being the log. *)
Definition logger (tag : string) : Utils.Func (list string) :=
  fun _ _ log => (VUndefined, log ++ [tag]).

(** A transform that wraps its first argument's number, plus [n]. *)
Definition adder (n : Z) : Utils.Func (list string) :=
  fun _ arguments log =>
    match arguments with
    | VNum x :: _ => (VNum (x + n), log)
    | _ => (VUndefined, log)
    end.

(** A transform that doubles its first argument. *)
Definition doubler : Utils.Func (list string) :=
  fun _ arguments log =>
    match arguments with
    | VNum x :: _ => (VNum (2 * x), log)
    | _ => (VUndefined, log)
    end.

Definition defaultOptions : Utils.Options (list string) :=
  {| Utils.options_ref := 0; Utils.options_props := ∅ |}.

(** An options object of its own that supplies nothing. *)
Definition emptyOptions : Utils.Options (list string) :=
  {| Utils.options_ref := 3; Utils.options_props := ∅ |}.

Definition originalOptions : Utils.Options (list string) :=
  {| Utils.options_ref := 1;
     Utils.options_props :=
       <["onCacheAdd" := Utils.Fn (logger "original")]>
       (<["transformArgs" := Utils.Fn (adder 1)]> ∅) |}.

Definition newOptions : Utils.Options (list string) :=
  {| Utils.options_ref := 2;
     Utils.options_props :=
       <["onCacheAdd" := Utils.Fn (logger "new")]>
       (<["transformArgs" := Utils.Fn doubler]> ∅) |}.

End Samples.

(** ** instance.js: the properties added to a memoized function *)

Module Properties.

Import Instance.

(** The function being memoized, as [addInstanceProperties] reads it:
    [displayName] may be missing ([None] is [undefined]); the [name] of a
    function is always a string, empty for an anonymous one. *)
Record OriginalFunction : Type := {
  fn_contextTypes : Value;
  fn_defaultProps : Value;
  fn_displayName : option string;
  fn_name : string;
  fn_propTypes : Value
}.

(** The truthiness of a string: the empty string is falsy. *)
Definition truthyString (s : string) : bool := negb (String.eqb s "").

(** [a || b] where [a] may be [undefined] and [b] is a string. *)
Definition orElse (a : option string) (b : string) : string :=
  match a with
  | Some s => if truthyString s then s else b
  | None => b
  end.

(** [originalFunction.displayName || originalFunction.name || 'Component'] *)
Definition shownName (originalFunction : OriginalFunction) : string :=
  orElse (fn_displayName originalFunction)
    (orElse (Some (fn_name originalFunction)) "Component").

(** The object given to [Object.assign] when [moizeOptions.isReact]. *)
Record ReactProperties : Type := {
  contextTypes : Value;
  defaultProps : Value;
  displayName : string;
  propTypes : Value
}.

Definition reactProperties (originalFunction : OriginalFunction) : ReactProperties :=
  {| contextTypes := fn_contextTypes originalFunction;
     defaultProps := fn_defaultProps originalFunction;
     displayName := "Moized(" ++ shownName originalFunction ++ ")";
     propTypes := fn_propTypes originalFunction |}.

(** The options given to moize: [isReact], and the fields that the instance
    methods read through [moized.options] once it answers these options. *)
Record MoizeOptions : Type := { isReact : bool; methodOptions : Options }.

(** The second argument of [addInstanceProperties] and
    [augmentMoizeInstance]. *)
Record Configuration : Type := {
  cfg_expirations : list Expiration.t;
  cfg_options : MoizeOptions;
  cfg_originalFunction : OriginalFunction
}.

(** What the memoization engine hands over: a function with its cache and
    its own options. *)
Record Memoized : Type := { engineCache : Cache; engineOptions : Options }.

(** The augmented function: the constants captured by [addInstanceMethods],
    the state the methods work on (with [moized.options] and
    [moized.expirations] answering the configuration), and the other
    properties that [addInstanceProperties] defines. *)
Record Augmented : Type := {
  captured : Options;
  instance : Moized;
  _microMemoizeOptions : Options;
  expirationsSnapshot : list Expiration.t;
  isMoized : bool;
  originalFunction : OriginalFunction;
  react : option ReactProperties
}.

(** [augmentMoizeInstance]: [addInstanceMethods] runs first, on the
    engine's options; [addInstanceProperties] then redefines
    [moized.options]. *)
Definition augmentMoizeInstance (moized : Memoized) (configuration : Configuration)
    : Augmented :=
  let installed := engineOptions moized in
  let microMemoizeOptions := engineOptions moized in
  {| captured := installed;
     instance :=
       {| cache := engineCache moized;
          options := methodOptions (cfg_options configuration);
          expirations := cfg_expirations configuration |};
     _microMemoizeOptions := microMemoizeOptions;
     expirationsSnapshot := cfg_expirations configuration;
     isMoized := true;
     originalFunction := cfg_originalFunction configuration;
     react :=
       if isReact (cfg_options configuration)
       then Some (reactProperties (cfg_originalFunction configuration))
       else None |}.

End Properties.

(** ** Predicates and reference functions used to state the properties *)

Module Reference.

Import Instance.

Section Calls.

Variable World : Type.

(** Call every function of the list, first to last, on the same [this] and
    arguments, and keep the world. *)
Definition callEach (functions : list (Utils.Func World)) (this : Value)
    (arguments : list Value) (w : World) : World :=
  fold_left (fun w' f => snd (f this arguments w')) functions w.

(** The right-to-left pipeline [f(g(...(last.apply(this, arguments))))]. *)
Fixpoint pipeline (f : Utils.Func World) (rest : list (Utils.Func World))
    : Utils.Func World :=
  match rest with
  | [] => f
  | g :: rest' =>
      fun this arguments w =>
        let '(result, w1) := pipeline g rest' this arguments w in
        f VUndefined [result] w1
  end.

(** The arguments that are functions, in order. *)
Fixpoint functionsOf (arguments : list (Utils.Any World)) : list (Utils.Func World) :=
  match arguments with
  | [] => []
  | Utils.Fn f :: rest => f :: functionsOf rest
  | Utils.NotFn _ :: rest => functionsOf rest
  end.

End Calls.

Arguments callEach {World} functions this arguments w.
Arguments pipeline {World} f rest.
Arguments functionsOf {World} arguments.

(** The two sequences of a cache have the same length. *)
Definition aligned (c : Cache) : Prop := length (keys c) = length (values c).

(** No stored key matches a key stored in front of it (a newer one), taken
    as the candidate. *)
Definition distinctKeys (installed : Options) (stored : list Key) : Prop :=
  ForallOrdPairs
    (fun newer older =>
       Utils.matchesKey (isEqual installed) (isMatchingKey installed) older newer = false)
    stored.

End Reference.

(** Further sample data. *)

Module Fixtures.

Import Instance.

Definition keyD : Key := {| key_ref := 6; key_items := [VStr "d"; VNum 4] |}.

(** A second array with the elements of [keyD]. *)
Definition keyD' : Key := {| key_ref := 7; key_items := [VStr "d"; VNum 4] |}.

(** The key [[NaN]]. *)
Definition keyNaN : Key := {| key_ref := 8; key_items := [VNaN] |}.

(** A cache of three entries, newest first. *)
Definition threeEntries (limit : MaxSize) : Moized :=
  {| cache := {| keys := [Samples.keyC; Samples.keyB; Samples.keyA];
                 values := [VNum 3; VNum 2; VNum 1] |};
     options := Samples.strictOptions limit;
     expirations := [] |}.

Definition thirdOptions : Utils.Options (list string) :=
  {| Utils.options_ref := 4;
     Utils.options_props :=
       <["onCacheAdd" := Utils.Fn (Samples.logger "third")]>
       (<["maxAge" := Utils.NotFn (VNum 1000)]> ∅) |}.

Definition anonymous : Properties.OriginalFunction :=
  {| Properties.fn_contextTypes := VUndefined;
     Properties.fn_defaultProps := VUndefined;
     Properties.fn_displayName := Some ""%string;
     Properties.fn_name := "";
     Properties.fn_propTypes := VUndefined |}.

End Fixtures.

(** ** Properties of the lookups of utils.js *)

Module UtilsFacts.

Import Utils.

Section KeyIndex.

Variable isEqual : Value -> Value -> bool.
Variable isMatchingKey : option (Key -> Key -> bool).

Local Abbreviation matches := (matchesKey isEqual isMatchingKey).
Local Abbreviation scan := (findKeyIndex_from isEqual isMatchingKey).

Lemma findKeyIndex_from_step cacheKey rest key start :
  scan (cacheKey :: rest) key start =
    if matches cacheKey key then start else scan rest key (start + 1).
Proof.
  unfold matchesKey. simpl.
  destruct (Nat.eqb (len cacheKey) (len key)); simpl; reflexivity.
Qed.

(** The scan returns either -1, and then no stored key matches, or the
    position of the first stored key that matches. *)
Lemma findKeyIndex_from_spec keys key start :
  (scan keys key start = -1 /\
     Forall (fun stored => matches stored key = false) keys)
  \/ (exists (i : nat) stored,
        scan keys key start = start + Z.of_nat i /\
        keys !! i = Some stored /\
        matches stored key = true /\
        Forall (fun earlier => matches earlier key = false) (take i keys)).
Proof.
  revert start. induction keys as [|cacheKey rest IH]; intros start.
  - left. split; [reflexivity | constructor].
  - rewrite findKeyIndex_from_step.
    destruct (matches cacheKey key) eqn:Hm.
    + right. exists 0%nat, cacheKey. simpl.
      repeat split; [lia | assumption | constructor].
    + destruct (IH (start + 1)) as [[Hnone Hall] | (i & stored & Hi & Hl & Hs & He)].
      * left. split; [assumption | constructor; assumption].
      * right. exists (S i), stored. simpl.
        repeat split; [lia | assumption | assumption | constructor; assumption].
Qed.

Lemma findKeyIndex_from_range keys key start :
  scan keys key start = -1 \/
  start <= scan keys key start < start + Z.of_nat (length keys).
Proof.
  destruct (findKeyIndex_from_spec keys key start)
    as [[Hnone _] | (i & stored & Hi & Hl & _)].
  - left; assumption.
  - right. apply lookup_lt_Some in Hl. lia.
Qed.

Lemma findKeyIndex_none_iff keys key :
  createFindKeyIndex isEqual isMatchingKey keys key = -1 <->
  Forall (fun stored => matches stored key = false) keys.
Proof.
  unfold createFindKeyIndex.
  destruct (findKeyIndex_from_spec keys key 0)
    as [[Hnone Hall] | (i & stored & Hi & Hl & Hs & He)].
  - split; intros _; assumption.
  - split.
    + intros Hneg. lia.
    + intros Hall. rewrite Forall_forall in Hall.
      assert (Hin : stored ∈ keys) by (apply list_elem_of_lookup; eauto).
      apply Hall in Hin. congruence.
Qed.

End KeyIndex.

Lemma findExpirationIndex_from_spec expirations key start :
  (findExpirationIndex_from expirations key start = -1 /\
     Forall (fun e => sameObject (Expiration.key e) key = false) expirations)
  \/ (exists (i : nat) e,
        findExpirationIndex_from expirations key start = start + Z.of_nat i /\
        expirations !! i = Some e /\
        sameObject (Expiration.key e) key = true /\
        Forall (fun earlier => sameObject (Expiration.key earlier) key = false)
          (take i expirations)).
Proof.
  revert start. induction expirations as [|e rest IH]; intros start.
  - left. split; [reflexivity | constructor].
  - simpl. destruct (sameObject (Expiration.key e) key) eqn:Hsame.
    + right. exists 0%nat, e. simpl. repeat split; [lia | assumption | constructor].
    + destruct (IH (start + 1)) as [[Hnone Hall] | (i & e' & Hi & Hl & Hs & He)].
      * left. split; [assumption | constructor; assumption].
      * right. exists (S i), e'. simpl.
        repeat split; [lia | assumption | assumption | constructor; assumption].
Qed.

(** C10. [findExpirationIndex] locates an expiration record by reference
    identity alone: it returns the position of the first record whose key is
    the same object as the query key, and -1 when there is none; it takes no
    equality or matcher function, so a key that is a distinct object from
    every stored key is never found, whatever its elements (a second array
    [["a"]] does not find the record of the first). *)
Theorem findExpirationIndex_by_reference (expirations : list Expiration.t) (key : Key) :
  ((findExpirationIndex expirations key = -1 /\
      Forall (fun e => sameObject (Expiration.key e) key = false) expirations)
   \/ (exists (i : nat) e,
         findExpirationIndex expirations key = Z.of_nat i /\
         expirations !! i = Some e /\
         sameObject (Expiration.key e) key = true /\
         Forall (fun earlier => sameObject (Expiration.key earlier) key = false)
           (take i expirations)))
  /\ (forall other : Key,
        Forall (fun e => key_ref (Expiration.key e) <> key_ref other) expirations ->
        findExpirationIndex expirations other = -1)
  /\ key_items Samples.keyA' = key_items Samples.keyA
  /\ findExpirationIndex [Samples.expirationA] Samples.keyA = 0
  /\ findExpirationIndex [Samples.expirationA] Samples.keyA' = -1.
Proof.
  split; [| split; [| repeat split]].
  - unfold findExpirationIndex.
    destruct (findExpirationIndex_from_spec expirations key 0)
      as [Hnone | (i & e & Hi & Hrest)].
    + left; exact Hnone.
    + right. exists i, e. rewrite Z.add_0_l in Hi. split; assumption.
  - intros other Hdistinct. unfold findExpirationIndex.
    destruct (findExpirationIndex_from_spec expirations other 0)
      as [[Hnone _] | (i & e & _ & Hl & Hsame & _)]; [assumption |].
    rewrite Forall_forall in Hdistinct.
    assert (Hin : e ∈ expirations) by (apply list_elem_of_lookup; eauto).
    apply Hdistinct in Hin. unfold sameObject in Hsame.
    apply Nat.eqb_eq in Hsame. contradiction.
Qed.



Section Reduce.

Variable World : Type.
Variable join : Func World -> Func World -> Func World.

Lemma reduce_function_absorbs (f : Func World) (rest : list (Any World)) :
  Forall (fun x => isFunction x = false) rest ->
  reduce World (reducer join) (Fn f) rest = Fn f.
Proof.
  unfold reduce. induction 1 as [|x rest Hx _ IH]; simpl; [reflexivity |].
  destruct x; [discriminate | exact IH].
Qed.

Lemma reduce_no_function (v : Value) (rest : list (Any World)) :
  Forall (fun x => isFunction x = false) rest ->
  reduce World (reducer join) (NotFn v) rest =
    match rest with [] => NotFn v | _ :: _ => NotFn VUndefined end.
Proof.
  unfold reduce. intros Hrest. revert v.
  induction Hrest as [|x rest Hx Hrest IH]; intros v; simpl; [reflexivity |].
  destruct x as [g | u]; [discriminate |]. simpl.
  rewrite IH. destruct rest; reflexivity.
Qed.

Lemma reduce_first_function (first : Any World) (before after : list (Any World))
    (f : Func World) :
  isFunction first = false ->
  Forall (fun x => isFunction x = false) before ->
  Forall (fun x => isFunction x = false) after ->
  reduce World (reducer join) first (before ++ Fn f :: after) = Fn f.
Proof.
  intros Hfirst Hbefore Hafter. destruct first as [g | v]; [discriminate |].
  pose proof (reduce_no_function v before Hbefore) as Hacc.
  pose proof (reduce_function_absorbs f after Hafter) as Hend.
  unfold reduce in *. rewrite fold_left_app, Hacc. simpl.
  destruct before; simpl; exact Hend.
Qed.

End Reduce.

Section Merge.

Variable World : Type.

Local Abbreviation Any := (Utils.Any World).

(** With no argument, [combine] and [compose] return [undefined]. *)
Lemma combine_compose_nil :
  combine (World := World) [] = NotFn VUndefined /\
  compose (World := World) [] = NotFn VUndefined.
Proof. split; reflexivity. Qed.

(** With two or more arguments, none of them a function, they return
    [undefined]. *)
Lemma combine_compose_no_function (first second : Any) (rest : list Any) :
  Forall (fun x => isFunction x = false) (first :: second :: rest) ->
  combine (first :: second :: rest) = NotFn VUndefined /\
  compose (first :: second :: rest) = NotFn VUndefined.
Proof.
  intros Hall. inversion Hall as [|? ? Hfirst Htail]; subst.
  destruct first as [f | v]; [discriminate |].
  unfold combine, compose. split; rewrite reduce_no_function by assumption; reflexivity.
Qed.

(** With exactly one function among the arguments, that function itself is
    returned. *)
Lemma combine_compose_one_function (before after : list Any) (f : Func World) :
  Forall (fun x => isFunction x = false) before ->
  Forall (fun x => isFunction x = false) after ->
  combine (before ++ Fn f :: after) = Fn f /\
  compose (before ++ Fn f :: after) = Fn f.
Proof.
  intros Hbefore Hafter. unfold combine, compose.
  destruct before as [|first before]; simpl.
  - split; apply reduce_function_absorbs; assumption.
  - inversion Hbefore; subst.
    split; apply reduce_first_function; assumption.
Qed.

(** The two-argument calls that [mergeOptions] makes. *)
Lemma combine_pair (f g : Any) :
  combine [f; g] = reducer combined f g /\ compose [f; g] = reducer composed f g.
Proof. split; reflexivity. Qed.

Variable DEFAULT_OPTIONS : Options World.

(** A property of the last source of [Object.assign] is the property of
    the result. *)
Lemma prop_assign3 (ref : nat) (a b c : gmap string (Utils.Any World))
    (name : string) (x : Utils.Any World) :
  c !! name = Some x ->
  prop {| options_ref := ref; options_props := assign3 World a b c |} name = x.
Proof.
  intros Hc. unfold prop, assign3. simpl.
  erewrite lookup_union_Some_l by exact Hc. reflexivity.
Qed.

(** The four function-valued fields of a merge that is not short-circuited
    by [newOptions === DEFAULT_OPTIONS]. *)
Lemma mergeOptions_fields (fresh : nat) (originalOptions newOptions : Options World) :
  options_ref newOptions <> options_ref DEFAULT_OPTIONS ->
  let merged := mergeOptions DEFAULT_OPTIONS fresh originalOptions newOptions in
  prop merged "onCacheAdd" =
    combine [prop originalOptions "onCacheAdd"; prop newOptions "onCacheAdd"] /\
  prop merged "onCacheChange" =
    combine [prop originalOptions "onCacheChange"; prop newOptions "onCacheChange"] /\
  prop merged "onCacheHit" =
    combine [prop originalOptions "onCacheHit"; prop newOptions "onCacheHit"] /\
  prop merged "transformArgs" =
    compose [prop originalOptions "transformArgs"; prop newOptions "transformArgs"].
Proof.
  intros Hne merged. subst merged. unfold mergeOptions.
  apply Nat.eqb_neq in Hne. rewrite Hne.
  repeat split; apply prop_assign3.
  - apply lookup_insert_eq.
  - rewrite lookup_insert_ne by discriminate. apply lookup_insert_eq.
  - do 2 (rewrite lookup_insert_ne by discriminate). apply lookup_insert_eq.
  - do 3 (rewrite lookup_insert_ne by discriminate). apply lookup_insert_eq.
Qed.

(** C8. When both options objects supply a callback of the same kind
    ([onCacheAdd], [onCacheChange] or [onCacheHit]), the merged options hold
    one callback that calls the new callback first and the original callback
    second, on the same [this] and arguments; when both supply
    [transformArgs], the merged transform applies the new transform to the
    arguments and returns what the original transform gives for its result.
    ([newOptions] is an options object of its own, not the [DEFAULT_OPTIONS]
    constant, for which [mergeOptions] returns [originalOptions] as it is.) *)
Theorem mergeOptions_combines_and_composes (fresh : nat)
    (originalOptions newOptions : Options World) :
  options_ref newOptions <> options_ref DEFAULT_OPTIONS ->
  let merged := mergeOptions DEFAULT_OPTIONS fresh originalOptions newOptions in
  (forall (kind : string) (original new : Func World),
      kind = "onCacheAdd" \/ kind = "onCacheChange" \/ kind = "onCacheHit" ->
      prop originalOptions kind = Fn original ->
      prop newOptions kind = Fn new ->
      exists both : Func World,
        prop merged kind = Fn both /\
        forall this arguments w,
          both this arguments w =
            (VUndefined, snd (original this arguments (snd (new this arguments w)))))
  /\ (forall original new : Func World,
        prop originalOptions "transformArgs" = Fn original ->
        prop newOptions "transformArgs" = Fn new ->
        exists pipeline : Func World,
          prop merged "transformArgs" = Fn pipeline /\
          forall this arguments w,
            pipeline this arguments w =
              original VUndefined [fst (new this arguments w)] (snd (new this arguments w))).
Proof.
  intros Hne merged.
  destruct (mergeOptions_fields fresh originalOptions newOptions Hne)
    as (Hadd & Hchange & Hhit & Htransform).
  fold merged in Hadd, Hchange, Hhit, Htransform.
  split.
  - intros kind original new Hkind Horiginal Hnew.
    exists (combined original new). split.
    + destruct Hkind as [-> | [-> | ->]];
        [rewrite Hadd | rewrite Hchange | rewrite Hhit];
        rewrite Horiginal, Hnew; reflexivity.
    + intros this arguments w. reflexivity.
  - intros original new Horiginal Hnew.
    exists (composed original new). split.
    + rewrite Htransform, Horiginal, Hnew. reflexivity.
    + intros this arguments w. unfold composed.
      destruct (new this arguments w) as [result w1]. reflexivity.
Qed.

(** If [DEFAULT_OPTIONS] holds no function in a field, the short-circuit of
    [mergeOptions] never applies to a [newOptions] that supplies one. *)
Lemma supplies_not_default (newOptions : Options World) (kind : string) (new : Func World) :
  isFunction (prop DEFAULT_OPTIONS kind) = false ->
  newOptions = DEFAULT_OPTIONS \/ options_ref newOptions <> options_ref DEFAULT_OPTIONS ->
  prop newOptions kind = Fn new ->
  options_ref newOptions <> options_ref DEFAULT_OPTIONS.
Proof.
  intros Hdefault [-> | Hne] Hnew; [| assumption].
  rewrite Hnew in Hdefault. discriminate.
Qed.

(** What [mergeOptions] leaves in a callback field when at most one side
    supplies a function. *)
Lemma mergeOptions_at_most_one (fresh : nat) (originalOptions newOptions : Options World)
    (kind : string) :
  options_ref newOptions <> options_ref DEFAULT_OPTIONS ->
  kind = "onCacheAdd" \/ kind = "onCacheChange" \/ kind = "onCacheHit"
    \/ kind = "transformArgs" ->
  let merged := mergeOptions DEFAULT_OPTIONS fresh originalOptions newOptions in
  (isFunction (prop originalOptions kind) = false ->
   isFunction (prop newOptions kind) = false ->
   prop merged kind = NotFn VUndefined)
  /\ (isFunction (prop newOptions kind) = false ->
      forall f, prop originalOptions kind = Fn f -> prop merged kind = Fn f)
  /\ (isFunction (prop originalOptions kind) = false ->
      forall g, prop newOptions kind = Fn g -> prop merged kind = Fn g).
Proof.
  intros Hne Hkind merged.
  destruct (mergeOptions_fields fresh originalOptions newOptions Hne)
    as (Hadd & Hchange & Hhit & Htransform).
  fold merged in Hadd, Hchange, Hhit, Htransform.
  assert (Hfield : prop merged kind =
                     reducer combined (prop originalOptions kind) (prop newOptions kind)
                   \/ prop merged kind =
                     reducer composed (prop originalOptions kind) (prop newOptions kind)).
  { destruct Hkind as [-> | [-> | [-> | ->]]]; [left | left | left | right]; assumption. }
  repeat split.
  - intros Ho Hn. destruct (prop originalOptions kind), (prop newOptions kind);
      try discriminate; destruct Hfield as [-> | ->]; reflexivity.
  - intros Hn f Ho. rewrite Ho in Hfield.
    destruct (prop newOptions kind); try discriminate;
      destruct Hfield as [-> | ->]; reflexivity.
  - intros Ho g Hn. rewrite Hn in Hfield.
    destruct (prop originalOptions kind); try discriminate;
      destruct Hfield as [-> | ->]; reflexivity.
Qed.

End Merge.

Lemma mergeOptions_combines_and_composes_witness :
  (exists both : Func (list string),
      prop (mergeOptions Samples.defaultOptions 9 Samples.originalOptions Samples.newOptions)
        "onCacheAdd" = Fn both /\
      both VUndefined [] [] = (VUndefined, ["new"; "original"]%string))
  /\ (exists pipeline : Func (list string),
        prop (mergeOptions Samples.defaultOptions 9 Samples.originalOptions Samples.newOptions)
          "transformArgs" = Fn pipeline /\
        pipeline VUndefined [VNum 5] [] = (VNum 11, [])).
Proof.
  destruct (mergeOptions_combines_and_composes (list string) Samples.defaultOptions 9
              Samples.originalOptions Samples.newOptions) as [Hcallbacks Htransform].
  { simpl. lia. }
  split.
  - destruct (Hcallbacks "onCacheAdd" (Samples.logger "original") (Samples.logger "new"))
      as (both & Hmerged & Hcall).
    + left. reflexivity.
    + reflexivity.
    + reflexivity.
    + exists both. split; [exact Hmerged | rewrite Hcall; reflexivity].
  - destruct (Htransform (Samples.adder 1) Samples.doubler) as (pipeline & Hmerged & Hcall).
    + reflexivity.
    + reflexivity.
    + exists pipeline. split; [exact Hmerged | rewrite Hcall; reflexivity].
Defined.

(** [combine(42)] and [compose(42)] are [42]: with a single argument,
    [reduce] returns it without calling the reducer, function or not. *)
Lemma combine_single_value_counterexample :
  isFunction (World := unit) (NotFn (VNum 42)) = false
  /\ combine (World := unit) [NotFn (VNum 42)] = NotFn (VNum 42)
  /\ compose (World := unit) [NotFn (VNum 42)] = NotFn (VNum 42)
  /\ NotFn (World := unit) (VNum 42) <> NotFn VUndefined.
Proof. repeat split. discriminate. Qed.

(** C9 (amended). [combine], and likewise [compose], returns [undefined]
    when called with no argument or with two or more arguments none of
    which is a function; with exactly one function among its arguments it
    returns that function itself, not a wrapper; so [mergeOptions], which
    passes two arguments (for a [newOptions] that is not [DEFAULT_OPTIONS]),
    leaves a merged callback field [undefined] when neither options object
    supplies that callback, and the supplied callback unwrapped when only
    one side supplies it. *)
Theorem combine_compose_unwrapped (World : Type) :
  (combine (World := World) [] = NotFn VUndefined /\
   compose (World := World) [] = NotFn VUndefined)
  /\ (forall (first second : Any World) (rest : list (Any World)),
        Forall (fun x => isFunction x = false) (first :: second :: rest) ->
        combine (first :: second :: rest) = NotFn VUndefined /\
        compose (first :: second :: rest) = NotFn VUndefined)
  /\ (forall (before after : list (Any World)) (f : Func World),
        Forall (fun x => isFunction x = false) before ->
        Forall (fun x => isFunction x = false) after ->
        combine (before ++ Fn f :: after) = Fn f /\
        compose (before ++ Fn f :: after) = Fn f)
  /\ (forall (DEFAULT_OPTIONS originalOptions newOptions : Options World)
             (fresh : nat) (kind : string),
        options_ref newOptions <> options_ref DEFAULT_OPTIONS ->
        kind = "onCacheAdd" \/ kind = "onCacheChange" \/ kind = "onCacheHit"
          \/ kind = "transformArgs" ->
        (isFunction (prop originalOptions kind) = false ->
         isFunction (prop newOptions kind) = false ->
         prop (mergeOptions DEFAULT_OPTIONS fresh originalOptions newOptions) kind =
           NotFn VUndefined)
        /\ (isFunction (prop newOptions kind) = false ->
            forall f, prop originalOptions kind = Fn f ->
                      prop (mergeOptions DEFAULT_OPTIONS fresh originalOptions newOptions) kind =
                        Fn f)
        /\ (isFunction (prop originalOptions kind) = false ->
            forall g, prop newOptions kind = Fn g ->
                      prop (mergeOptions DEFAULT_OPTIONS fresh originalOptions newOptions) kind =
                        Fn g)).
Proof.
  split; [| split; [| split]].
  - apply combine_compose_nil.
  - apply combine_compose_no_function.
  - apply combine_compose_one_function.
  - intros DEFAULT_OPTIONS originalOptions newOptions fresh kind Hne Hkind.
    apply mergeOptions_at_most_one; assumption.
Qed.

Lemma combine_compose_unwrapped_witness :
  combine [NotFn VNull; Fn (Samples.logger "only"); NotFn (VNum 1)] =
    Fn (Samples.logger "only")
  /\ combine (World := list string) [NotFn VNull; NotFn (VNum 1)] = NotFn VUndefined
  /\ prop (mergeOptions Samples.defaultOptions 9 Samples.originalOptions Samples.newOptions)
       "onCacheHit" = NotFn VUndefined
  /\ prop (mergeOptions Samples.defaultOptions 9 Samples.originalOptions Samples.emptyOptions)
       "onCacheAdd" = Fn (Samples.logger "original").
Proof.
  destruct (combine_compose_unwrapped (list string)) as (_ & Hnone & Hone & Hmerge).
  split; [| split; [| split]].
  - apply (Hone [NotFn VNull] [NotFn (VNum 1)] (Samples.logger "only")).
    + repeat constructor.
    + repeat constructor.
  - apply (Hnone (NotFn VNull) (NotFn (VNum 1)) []). repeat constructor.
  - destruct (Hmerge Samples.defaultOptions Samples.originalOptions Samples.newOptions
                9%nat "onCacheHit") as (Hneither & _ & _).
    + simpl. lia.
    + right. right. left. reflexivity.
    + apply Hneither; reflexivity.
  - destruct (Hmerge Samples.defaultOptions Samples.originalOptions Samples.emptyOptions
                9%nat "onCacheAdd") as (_ & Horiginal & _).
    + simpl. lia.
    + left. reflexivity.
    + apply Horiginal; reflexivity.
Defined.

Lemma findExpirationIndex_by_reference_witness :
  findExpirationIndex [Samples.expirationA] Samples.keyB = -1.
Proof.
  destruct (findExpirationIndex_by_reference [Samples.expirationA] Samples.keyA)
    as (_ & Hdistinct & _).
  apply Hdistinct. repeat constructor. simpl. lia.
Defined.

End UtilsFacts.

(** ** Properties of the instance methods *)

Module InstanceFacts.

Import Instance.

Lemma truthy_bitNot (n : Z) : truthy (bitNot n) = negb (n =? -1).
Proof.
  unfold truthy, bitNot, Z.lnot. f_equal.
  destruct (Z.eqb_spec (Z.pred (- n)) 0), (Z.eqb_spec n (-1)); try reflexivity; lia.
Qed.

Lemma length_removelast {A : Type} (l : list A) :
  length (removelast l) = Nat.pred (length l).
Proof.
  rewrite removelast_firstn_len, length_take. lia.
Qed.

Section Store.

Variable installed : Options.

Local Abbreviation matches :=
  (Utils.matchesKey (isEqual installed) (isMatchingKey installed)).
Local Abbreviation saved := (transformed installed).

(** The guard of [add], [!~findKeyIndex(keys, savedKey)], holds exactly when
    no stored key matches. *)
Lemma absent_iff (stored : list Key) (key : Key) :
  negb (truthy (bitNot (findKeyIndex installed stored key))) = true <->
  Forall (fun k => matches k key = false) stored.
Proof.
  rewrite truthy_bitNot, negb_involutive, Z.eqb_eq.
  apply UtilsFacts.findKeyIndex_none_iff.
Qed.

Lemma present_iff (stored : list Key) (key : Key) :
  negb (truthy (bitNot (findKeyIndex installed stored key))) = false <->
  Exists (fun k => matches k key = true) stored.
Proof.
  rewrite <- not_true_iff_false, absent_iff. split.
  - intros Hnot. unfold findKeyIndex, Utils.createFindKeyIndex in *.
    destruct (UtilsFacts.findKeyIndex_from_spec (isEqual installed)
                (isMatchingKey installed) stored key 0)
      as [[_ Hall] | (i & k & _ & Hl & Hk & _)]; [contradiction |].
    apply Exists_exists. exists k. split; [| assumption].
    apply list_elem_of_lookup. eauto.
  - intros Hex Hall. apply Exists_exists in Hex. destruct Hex as (k & Hin & Hk).
    rewrite Forall_forall in Hall. specialize (Hall k Hin). congruence.
Qed.

(** [add] of a key that no stored key matches. *)
Lemma add_absent (key : Key) (value : Value) (moized : Moized) :
  Forall (fun k => matches k (saved key) = false) (keys (cache moized)) ->
  add installed key value moized =
    let popped :=
      if reaches (base.size (cache moized)) (maxSize (options moized)) then
        {| keys := removelast (keys (cache moized));
           values := removelast (values (cache moized)) |}
      else cache moized in
    let moized' :=
      withCache moized
        {| keys := saved key :: keys popped; values := value :: values popped |} in
    {| returned := RValue VUndefined;
       after := moized';
       calls := [onCacheAdd (cache moized') (options moized') moized';
                 onCacheChange (cache moized') (options moized') moized'] |}.
Proof.
  intros Habsent. apply absent_iff in Habsent.
  unfold add. rewrite Habsent. reflexivity.
Qed.

(** [add] of a key that a stored key matches. *)
Lemma add_present (key : Key) (value : Value) (moized : Moized) :
  Exists (fun k => matches k (saved key) = true) (keys (cache moized)) ->
  add installed key value moized =
    {| returned := RValue VUndefined; after := moized; calls := [] |}.
Proof.
  intros Hpresent. apply present_iff in Hpresent.
  unfold add. rewrite Hpresent. reflexivity.
Qed.

Lemma absent_or_present (key : Key) (stored : list Key) :
  Forall (fun k => matches k key = false) stored \/
  Exists (fun k => matches k key = true) stored.
Proof.
  destruct (negb (truthy (bitNot (findKeyIndex installed stored key)))) eqn:Hguard.
  - left. apply absent_iff. assumption.
  - right. apply present_iff. assumption.
Qed.

Lemma add_options (key : Key) (value : Value) (moized : Moized) :
  options (after (add installed key value moized)) = options moized.
Proof.
  unfold add. destruct (negb _); reflexivity.
Qed.

Lemma remove_expirations (key : Key) (moized : Moized) :
  expirations (after (remove installed key moized)) = expirations moized.
Proof.
  unfold remove. destruct (truthy _); reflexivity.
Qed.

(** C7. An [add] whose key no stored key matches calls [onCacheAdd] once
    and then [onCacheChange] once, in that order and nothing else, each with
    the resulting cache (the new entry at its front), the options and the
    memoized function; an [add] whose key a stored key matches calls neither
    and leaves the memoized function as it was. *)
Theorem add_callback_cardinality (key : Key) (value : Value) (moized : Moized) :
  (Forall (fun k => matches k (saved key) = false) (keys (cache moized)) ->
   exists moized',
     after (add installed key value moized) = moized' /\
     calls (add installed key value moized) =
       [onCacheAdd (cache moized') (options moized') moized';
        onCacheChange (cache moized') (options moized') moized'] /\
     head (keys (cache moized')) = Some (saved key) /\
     head (values (cache moized')) = Some value /\
     options moized' = options moized)
  /\ (Exists (fun k => matches k (saved key) = true) (keys (cache moized)) ->
      calls (add installed key value moized) = [] /\
      after (add installed key value moized) = moized).
Proof.
  split.
  - intros Habsent. rewrite (add_absent key value moized Habsent). simpl.
    eexists. repeat split.
  - intros Hpresent. rewrite (add_present key value moized Hpresent). simpl.
    split; reflexivity.
Qed.

(** C3 (amended). When no stored key matches and the cache is at or above
    [maxSize], [add] removes the last key and the last value and then puts
    the new entry at the front of both sequences; when a stored key already
    matches, [add] changes nothing and calls nothing; in every case, found
    or not, at the bound, below it or without one, [add] returns
    [undefined]. *)
Theorem add_evicts_last (key : Key) (value : Value) (moized : Moized) :
  returned (add installed key value moized) = RValue VUndefined
  /\ (forall limit : nat,
        maxSize (options moized) = MaxNum limit ->
        (limit <= base.size (cache moized))%nat ->
        Forall (fun k => matches k (saved key) = false) (keys (cache moized)) ->
        keys (cache (after (add installed key value moized))) =
          saved key :: removelast (keys (cache moized)) /\
        values (cache (after (add installed key value moized))) =
          value :: removelast (values (cache moized)))
  /\ (Exists (fun k => matches k (saved key) = true) (keys (cache moized)) ->
      after (add installed key value moized) = moized /\
      calls (add installed key value moized) = []).
Proof.
  split; [| split].
  - unfold add. destruct (negb _); reflexivity.
  - intros limit Hmax Hfull Habsent.
    rewrite (add_absent key value moized Habsent). simpl.
    rewrite Hmax. simpl.
    apply Nat.leb_le in Hfull. rewrite Hfull. simpl. split; reflexivity.
  - intros Hpresent. rewrite (add_present key value moized Hpresent). simpl.
    split; reflexivity.
Qed.

(** One [add] under a bound of at least one keeps the size within the bound:
    it changes nothing, or inserts at the front below the bound, or at the
    bound drops the last key and the last value before inserting. *)
Lemma add_step (key : Key) (value : Value) (moized : Moized) (limit : nat) :
  (1 <= limit)%nat ->
  maxSize (options moized) = MaxNum limit ->
  after (add installed key value moized) = moized
  \/ ((base.size (cache moized) < limit)%nat /\
      keys (cache (after (add installed key value moized))) =
        saved key :: keys (cache moized) /\
      values (cache (after (add installed key value moized))) =
        value :: values (cache moized))
  \/ ((limit <= base.size (cache moized))%nat /\
      (exists front evicted,
          keys (cache moized) = front ++ [evicted] /\
          keys (cache (after (add installed key value moized))) = saved key :: front) /\
      values (cache (after (add installed key value moized))) =
        value :: removelast (values (cache moized))).
Proof.
  intros Hpos Hmax.
  destruct (absent_or_present (saved key) (keys (cache moized))) as [Habsent | Hpresent].
  - rewrite (add_absent key value moized Habsent). simpl. rewrite Hmax. simpl.
    destruct (Nat.leb_spec limit (base.size (cache moized))) as [Hfull | Hroom].
    + right. right. split; [assumption |]. simpl. split; [| reflexivity].
      unfold base.size, size in Hfull.
      destruct (keys (cache moized)) as [|k ks] eqn:Hkeys using rev_ind.
      * simpl in Hfull. lia.
      * exists ks, k. split; [reflexivity |]. rewrite removelast_last. reflexivity.
    + right. left. split; [assumption |]. split; reflexivity.
  - left. rewrite (add_present key value moized Hpresent). reflexivity.
Qed.

Lemma add_size_bound (key : Key) (value : Value) (moized : Moized) (limit : nat) :
  (1 <= limit)%nat ->
  maxSize (options moized) = MaxNum limit ->
  (base.size (cache moized) <= limit)%nat ->
  (base.size (cache (after (add installed key value moized))) <= limit)%nat.
Proof.
  intros Hpos Hmax Hsize.
  destruct (add_step key value moized limit Hpos Hmax)
    as [-> | [(Hroom & Hkeys & _) | (Hfull & (front & evicted & Hbefore & Hkeys) & _)]].
  - assumption.
  - unfold base.size, size in *. rewrite Hkeys. simpl. lia.
  - unfold base.size, size in *. rewrite Hkeys. rewrite Hbefore in Hsize.
    rewrite length_app in Hsize. simpl in *. lia.
Qed.

Lemma addAll_size_bound (entries : list (Key * Value)) (moized : Moized) (limit : nat) :
  (1 <= limit)%nat ->
  maxSize (options moized) = MaxNum limit ->
  (base.size (cache moized) <= limit)%nat ->
  (base.size (cache (addAll installed entries moized)) <= limit)%nat.
Proof.
  intros Hpos. revert moized.
  induction entries as [|[key value] entries IH]; intros moized Hmax Hsize.
  - exact Hsize.
  - unfold addAll in *. simpl. apply IH.
    + rewrite add_options. exact Hmax.
    + apply add_size_bound; assumption.
Qed.

(** Without a bound, a sequence of [add] calls whose keys match neither a
    stored key nor one another only grows the two sequences at the front. *)
Lemma addAll_no_eviction (entries : list (Key * Value)) (moized : Moized) :
  maxSize (options moized) = MaxUndefined ->
  Forall (fun entry =>
            Forall (fun k => matches k (saved (fst entry)) = false) (keys (cache moized)))
    entries ->
  ForallOrdPairs (fun earlier later =>
                    matches (saved (fst earlier)) (saved (fst later)) = false) entries ->
  keys (cache (addAll installed entries moized)) =
    rev (map (fun entry => saved (fst entry)) entries) ++ keys (cache moized) /\
  values (cache (addAll installed entries moized)) =
    rev (map snd entries) ++ values (cache moized).
Proof.
  revert moized.
  induction entries as [|[key value] entries IH]; intros moized Hmax Hstored Hpairs.
  - split; reflexivity.
  - inversion Hstored as [|? ? Hhead Htail]; subst.
    inversion Hpairs as [|? ? Hfirst Hrest]; subst.
    simpl in Hhead.
    pose proof (add_absent key value moized Hhead) as Hadd.
    rewrite Hmax in Hadd. simpl in Hadd.
    unfold addAll in *. simpl fold_left. rewrite Hadd. simpl after.
    destruct (IH (withCache moized
                    {| keys := saved key :: keys (cache moized);
                       values := value :: values (cache moized) |})) as [Hkeys Hvalues].
    + exact Hmax.
    + simpl. rewrite Forall_forall in Htail, Hfirst.
      apply Forall_forall. intros later Hin.
      constructor; [apply (Hfirst later Hin) | apply (Htail later Hin)].
    + exact Hrest.
    + rewrite Hkeys, Hvalues. simpl.
      rewrite <- !app_assoc. split; reflexivity.
Qed.

End Store.

(** C6. Under [maxSize = N] with [N >= 1], a cache within the bound stays
    within it after any sequence of [add] calls; each [add] either changes
    nothing, or inserts at the front below the bound, or at the bound drops
    the entry at the back (the last key and the last value) before
    inserting; with [maxSize = 2], adding [["a"]], [["b"]], [["c"]] to an
    empty cache leaves the keys [[["c"], ["b"]]], with [["a"]] evicted. *)
Theorem add_bounded_lru (installed : Options) (entries : list (Key * Value))
    (moized : Moized) (limit : nat) :
  (1 <= limit)%nat ->
  maxSize (options moized) = MaxNum limit ->
  (base.size (cache moized) <= limit)%nat ->
  (base.size (cache (addAll installed entries moized)) <= limit)%nat
  /\ (forall (key : Key) (value : Value) (current : Moized),
        maxSize (options current) = MaxNum limit ->
        after (add installed key value current) = current
        \/ ((base.size (cache current) < limit)%nat /\
            keys (cache (after (add installed key value current))) =
              transformed installed key :: keys (cache current) /\
            values (cache (after (add installed key value current))) =
              value :: values (cache current))
        \/ ((limit <= base.size (cache current))%nat /\
            (exists front evicted,
                keys (cache current) = front ++ [evicted] /\
                keys (cache (after (add installed key value current))) =
                  transformed installed key :: front) /\
            values (cache (after (add installed key value current))) =
              value :: removelast (values (cache current))))
  /\ cache (addAll (Samples.strictOptions (MaxNum 2))
              [(Samples.keyA, VNum 1); (Samples.keyB, VNum 2); (Samples.keyC, VNum 3)]
              (Samples.fresh (MaxNum 2))) =
       {| keys := [Samples.keyC; Samples.keyB]; values := [VNum 3; VNum 2] |}.
Proof.
  intros Hpos Hmax Hsize. split; [| split].
  - apply addAll_size_bound; assumption.
  - intros key value current Hcurrent. apply add_step; assumption.
  - reflexivity.
Qed.

Lemma add_bounded_lru_witness :
  (base.size (cache (addAll (Samples.strictOptions (MaxNum 2))
                       [(Samples.keyA, VNum 1); (Samples.keyB, VNum 2); (Samples.keyC, VNum 3)]
                       (Samples.fresh (MaxNum 2)))) <= 2)%nat.
Proof.
  apply (add_bounded_lru (Samples.strictOptions (MaxNum 2))
           [(Samples.keyA, VNum 1); (Samples.keyB, VNum 2); (Samples.keyC, VNum 3)]
           (Samples.fresh (MaxNum 2)) 2).
  - lia.
  - reflexivity.
  - vm_compute. lia.
Defined.

(** With [maxSize = 0], two adds of keys that do not match leave one entry:
    the first is evicted by the second. *)
Lemma add_maxSize_zero_counterexample :
  Utils.matchesKey strictEquals None Samples.keyA Samples.keyB = false /\
  cache (addAll (Samples.strictOptions (MaxNum 0))
           [(Samples.keyA, VNum 1); (Samples.keyB, VNum 2)]
           (Samples.fresh (MaxNum 0))) =
    {| keys := [Samples.keyB]; values := [VNum 2] |} /\
  base.size (cache (addAll (Samples.strictOptions (MaxNum 0))
                      [(Samples.keyA, VNum 1); (Samples.keyB, VNum 2)]
                      (Samples.fresh (MaxNum 0)))) = 1%nat.
Proof. repeat split. Qed.

(** C4 (amended). When [maxSize] is unset the cache is unbounded: a sequence
    of [add] calls on an empty cache whose saved keys pairwise do not match
    under the active key matcher evicts nothing (every key and value is
    kept, newest first), and the size afterwards is the number of adds. *)
Theorem add_unbounded_when_unset (installed : Options) (entries : list (Key * Value))
    (moized : Moized) :
  maxSize (options moized) = MaxUndefined ->
  cache moized = {| keys := []; values := [] |} ->
  ForallOrdPairs
    (fun earlier later =>
       Utils.matchesKey (isEqual installed) (isMatchingKey installed)
         (transformed installed (fst earlier)) (transformed installed (fst later)) = false)
    entries ->
  cache (addAll installed entries moized) =
    {| keys := rev (map (fun entry => transformed installed (fst entry)) entries);
       values := rev (map snd entries) |}
  /\ base.size (cache (addAll installed entries moized)) = length entries.
Proof.
  intros Hmax Hempty Hpairs.
  destruct (addAll_no_eviction installed entries moized Hmax) as [Hkeys Hvalues].
  - rewrite Hempty. simpl. apply Forall_forall. intros entry _. constructor.
  - exact Hpairs.
  - rewrite Hempty in Hkeys, Hvalues. simpl in Hkeys, Hvalues.
    rewrite app_nil_r in Hkeys, Hvalues.
    unfold base.size, size. rewrite Hkeys.
    split.
    + destruct (cache (addAll installed entries moized)) as [ks vs].
      simpl in *. subst. reflexivity.
    + rewrite length_rev, length_map. reflexivity.
Qed.

Lemma add_unbounded_when_unset_witness :
  cache (addAll (Samples.strictOptions MaxUndefined)
           [(Samples.keyA, VNum 1); (Samples.keyB, VNum 2); (Samples.keyC, VNum 3)]
           (Samples.fresh MaxUndefined)) =
    {| keys := [Samples.keyC; Samples.keyB; Samples.keyA];
       values := [VNum 3; VNum 2; VNum 1] |}
  /\ base.size (cache (addAll (Samples.strictOptions MaxUndefined)
                         [(Samples.keyA, VNum 1); (Samples.keyB, VNum 2); (Samples.keyC, VNum 3)]
                         (Samples.fresh MaxUndefined))) = 3%nat.
Proof.
  apply (add_unbounded_when_unset (Samples.strictOptions MaxUndefined)
           [(Samples.keyA, VNum 1); (Samples.keyB, VNum 2); (Samples.keyC, VNum 3)]
           (Samples.fresh MaxUndefined)).
  - reflexivity.
  - reflexivity.
  - repeat constructor.
Defined.

Lemma add_callback_cardinality_witness :
  calls (add (Samples.strictOptions (MaxNum 1)) Samples.keyB (VNum 2) Samples.fullOfA) =
    [onCacheAdd
       (cache (after (add (Samples.strictOptions (MaxNum 1)) Samples.keyB (VNum 2)
                        Samples.fullOfA)))
       (Samples.strictOptions (MaxNum 1))
       (after (add (Samples.strictOptions (MaxNum 1)) Samples.keyB (VNum 2) Samples.fullOfA));
     onCacheChange
       (cache (after (add (Samples.strictOptions (MaxNum 1)) Samples.keyB (VNum 2)
                        Samples.fullOfA)))
       (Samples.strictOptions (MaxNum 1))
       (after (add (Samples.strictOptions (MaxNum 1)) Samples.keyB (VNum 2) Samples.fullOfA))]
  /\ calls (add (Samples.strictOptions (MaxNum 1)) Samples.keyA' (VNum 9) Samples.fullOfA) = []
  /\ after (add (Samples.strictOptions (MaxNum 1)) Samples.keyA' (VNum 9) Samples.fullOfA) =
       Samples.fullOfA.
Proof.
  split.
  - destruct (add_callback_cardinality (Samples.strictOptions (MaxNum 1)) Samples.keyB
                (VNum 2) Samples.fullOfA) as [Hnew _].
    destruct Hnew as (moized' & Hafter & Hcalls & _ & _ & Hoptions).
    + repeat constructor.
    + rewrite Hcalls, Hafter, Hoptions. reflexivity.
  - destruct (add_callback_cardinality (Samples.strictOptions (MaxNum 1)) Samples.keyA'
                (VNum 9) Samples.fullOfA) as [_ Hold].
    apply Hold. constructor. reflexivity.
Defined.

(** On a full cache whose only entry has an armed expiration, [add] of a new
    key evicts that entry and returns [undefined] rather than a flag; when
    it calls [onCacheAdd], after the eviction and the insertion, the
    expiration record of the evicted key is still the first of the list of
    the memoized function it hands over. *)
Lemma add_eviction_counterexample :
  keys (cache (after (add (Samples.strictOptions (MaxNum 1)) Samples.keyB (VNum 2)
                        Samples.fullOfA))) = [Samples.keyB]
  /\ returned (add (Samples.strictOptions (MaxNum 1)) Samples.keyB (VNum 2) Samples.fullOfA)
       = RValue VUndefined
  /\ returned (add (Samples.strictOptions (MaxNum 1)) Samples.keyB (VNum 2) Samples.fullOfA)
       <> RValue (VBool true)
  /\ (exists c o handed,
        head (calls (add (Samples.strictOptions (MaxNum 1)) Samples.keyB (VNum 2)
                       Samples.fullOfA)) = Some (onCacheAdd c o handed)
        /\ keys c = [Samples.keyB]
        /\ Utils.findExpirationIndex (expirations handed) Samples.keyA = 0).
Proof.
  repeat split; [discriminate |].
  eexists _, _, _. repeat split.
Qed.

Lemma add_evicts_last_witness :
  returned (add (Samples.strictOptions (MaxNum 1)) Samples.keyB (VNum 2) Samples.fullOfA)
    = RValue VUndefined
  /\ keys (cache (after (add (Samples.strictOptions (MaxNum 1)) Samples.keyB (VNum 2)
                           Samples.fullOfA))) = [Samples.keyB]
  /\ values (cache (after (add (Samples.strictOptions (MaxNum 1)) Samples.keyB (VNum 2)
                             Samples.fullOfA))) = [VNum 2]
  /\ after (add (Samples.strictOptions (MaxNum 1)) Samples.keyA' (VNum 9) Samples.fullOfA) =
       Samples.fullOfA
  /\ returned (add (Samples.strictOptions MaxUndefined) Samples.keyB (VNum 2)
                 (Samples.fresh MaxUndefined)) = RValue VUndefined.
Proof.
  destruct (add_evicts_last (Samples.strictOptions (MaxNum 1)) Samples.keyB (VNum 2)
              Samples.fullOfA) as (Hreturned & Hevicts & _).
  destruct (add_evicts_last (Samples.strictOptions (MaxNum 1)) Samples.keyA' (VNum 9)
              Samples.fullOfA) as (_ & _ & Hnoop).
  destruct (add_evicts_last (Samples.strictOptions MaxUndefined) Samples.keyB (VNum 2)
              (Samples.fresh MaxUndefined)) as (Hbelow & _ & _).
  destruct (Hevicts 1%nat) as [Hkeys Hvalues].
  - reflexivity.
  - vm_compute. lia.
  - repeat constructor.
  - destruct Hnoop as [Hafter _].
    + constructor. reflexivity.
    + repeat split; assumption.
Defined.

(** C1. The methods that [addInstanceMethods] defines are [add], [clear],
    [get], [getStats], [has], [keys], [remove] and [values]: there is no
    [update] among them, so [moized.update(key, newValue)] is a call of
    [undefined], which throws and promotes or overwrites nothing. *)
Theorem update_not_installed (getStats : option string -> StatsProfile)
    (apply : Key -> Moized -> Outcome) (installed : Options)
    (key : Key) (newValue : Value) (moized : Moized) :
  map fst instanceMethods =
    ["add"; "clear"; "get"; "getStats"; "has"; "keys"; "remove"; "values"]%string
  /\ property "update" = None
  /\ invoke getStats apply installed "update" key newValue moized = TypeError
  /\ invoke getStats apply installed "remove" key newValue moized =
       Normal (remove installed key moized).
Proof. repeat split. Qed.

(** C2. [remove] deletes the key and the value and leaves the list of
    expirations as it was: after [remove(key)] on the cache of the tests,
    whose only key has an armed expiration, the entry is gone and the
    expiration record of that key is still the first of the list. *)
Theorem remove_keeps_expiration (installed : Options) (key : Key) (moized : Moized) :
  expirations (after (remove installed key moized)) = expirations moized
  /\ keys (cache (after (remove (Samples.strictOptions (MaxNum 1)) Samples.keyA
                           Samples.fullOfA))) = []
  /\ expirations (after (remove (Samples.strictOptions (MaxNum 1)) Samples.keyA
                           Samples.fullOfA)) = [Samples.expirationA]
  /\ Utils.findExpirationIndex
       (expirations (after (remove (Samples.strictOptions (MaxNum 1)) Samples.keyA
                              Samples.fullOfA))) Samples.keyA = 0.
Proof.
  split; [apply remove_expirations | repeat split].
Qed.

End InstanceFacts.

(** ** Further properties of utils.js *)

Module UtilsExtra.

Import Utils Reference.

(** X1. The index that [findKeyIndex] returns is -1 or the position of a
    stored key: it is never out of the bounds of the keys. *)
Theorem findKeyIndex_in_bounds (isEqual : Value -> Value -> bool)
    (isMatchingKey : option (Key -> Key -> bool)) (keys : list Key) (key : Key) :
  createFindKeyIndex isEqual isMatchingKey keys key = -1
  \/ (0 <= createFindKeyIndex isEqual isMatchingKey keys key < Z.of_nat (length keys)
      /\ is_Some (keys !! Z.to_nat (createFindKeyIndex isEqual isMatchingKey keys key))).
Proof.
  unfold createFindKeyIndex.
  destruct (UtilsFacts.findKeyIndex_from_spec isEqual isMatchingKey keys key 0)
    as [[Hnone _] | (i & stored & Hi & Hl & _)].
  - left. assumption.
  - right. rewrite Hi, Z.add_0_l, Nat2Z.id.
    pose proof (lookup_lt_Some _ _ _ Hl). split; [lia | eauto].
Qed.

Lemma areKeysEqual_from_spec (isEqual : Value -> Value -> bool) (cacheKey key : Key)
    (index n : nat) :
  areKeysEqual_from isEqual cacheKey key index n = true <->
  forall i : nat, (index <= i < index + n)%nat ->
                  isEqual (item cacheKey i) (item key i) = true.
Proof.
  revert index. induction n as [|n IH]; intros index; simpl.
  - split; [intros _ i Hi; lia | reflexivity].
  - destruct (isEqual (item cacheKey index) (item key index)) eqn:Hhere; simpl.
    + rewrite IH. split.
      * intros Hrest i Hi. destruct (decide (i = index)) as [-> | Hne];
          [assumption | apply Hrest; lia].
      * intros Hall i Hi. apply Hall. lia.
    + split; [discriminate |]. intros Hall.
      rewrite Hall in Hhere by lia. discriminate.
Qed.

Lemma matchesKey_default_iff (isEqual : Value -> Value -> bool) (stored key : Key) :
  matchesKey isEqual None stored key = true <->
  len stored = len key /\
  forall i : nat, (i < len key)%nat -> isEqual (item stored i) (item key i) = true.
Proof.
  unfold matchesKey, areKeysEqual.
  rewrite andb_true_iff, Nat.eqb_eq, areKeysEqual_from_spec.
  split; intros [Hlen Hall]; (split; [assumption |]); intros i Hi; apply Hall; lia.
Qed.

(** X2. Without a custom matcher, a stored key matches a candidate exactly
    when the two have the same length and [isEqual] holds of every pair of
    elements at the same position; keys of different lengths never match. *)
Theorem default_matcher_elementwise (isEqual : Value -> Value -> bool)
    (stored key : Key) :
  matchesKey isEqual None stored key = true <->
  len stored = len key /\
  forall i : nat, (i < len key)%nat -> isEqual (item stored i) (item key i) = true.
Proof. apply matchesKey_default_iff. Qed.

Lemma strictEquals_true_iff (a b : Value) :
  strictEquals a b = true <-> a = b /\ a <> VNaN.
Proof.
  unfold strictEquals.
  destruct (decide (a = VNaN)) as [-> | Hne].
  - split; [intros Hfalse; discriminate Hfalse | intros [_ Hnan]; contradiction].
  - assert (Hsame : match a with VNaN => false | _ => bool_decide (a = b) end =
                    bool_decide (a = b)) by (destruct a; congruence).
    rewrite Hsame, bool_decide_eq_true. tauto.
Qed.

Lemma strict_matcher_items (stored key : Key) :
  matchesKey strictEquals None stored key = true <->
  key_items stored = key_items key /\ VNaN ∉ key_items key.
Proof.
  rewrite matchesKey_default_iff. unfold len, item. split.
  - intros [Hlen Hall]. split.
    + apply (list_eq_same_length _ _ (length (key_items key))); try done.
      intros i x y Hi Hx Hy. specialize (Hall i Hi).
      rewrite Hx, Hy in Hall. simpl in Hall.
      apply strictEquals_true_iff in Hall. tauto.
    + intros Hnan. apply list_elem_of_lookup in Hnan. destruct Hnan as [i Hi].
      pose proof (lookup_lt_Some _ _ _ Hi) as Hlt.
      specialize (Hall i Hlt). rewrite Hi in Hall. simpl in Hall.
      apply strictEquals_true_iff in Hall. destruct Hall as [Heq Hne].
      congruence.
  - intros [Heq Hnan]. rewrite Heq. split; [reflexivity |]. intros i Hi.
    apply lookup_lt_is_Some in Hi. destruct Hi as [x Hx]. rewrite Hx. simpl.
    apply strictEquals_true_iff. split; [reflexivity |].
    intros ->. apply Hnan. apply list_elem_of_lookup. eauto.
Qed.

(** X3. With strict equality and no custom matcher, the lookup compares
    keys by their elements, not by identity.  For a candidate with no [NaN]
    among its elements it returns the index of the first stored key that has
    the elements of the candidate, whether or not it is the same array, and
    -1 when no stored key has them; a candidate with a [NaN] element is
    never found, not even when it is itself a stored key. *)
Theorem findKeyIndex_strict_structural (keys : list Key) (key : Key) :
  (VNaN ∈ key_items key -> createFindKeyIndex strictEquals None keys key = -1)
  /\ (VNaN ∉ key_items key ->
      (createFindKeyIndex strictEquals None keys key = -1 /\
         Forall (fun stored => key_items stored <> key_items key) keys)
      \/ (exists (i : nat) stored,
            createFindKeyIndex strictEquals None keys key = Z.of_nat i /\
            keys !! i = Some stored /\
            key_items stored = key_items key /\
            Forall (fun earlier => key_items earlier <> key_items key) (take i keys))).
Proof.
  split.
  - intros Hnan. apply UtilsFacts.findKeyIndex_none_iff.
    apply Forall_forall. intros stored _.
    destruct (matchesKey strictEquals None stored key) eqn:Hmatch; [| reflexivity].
    apply strict_matcher_items in Hmatch. tauto.
  - intros Hclean.
    assert (Hno : forall l : list Key,
               Forall (fun stored => matchesKey strictEquals None stored key = false) l ->
               Forall (fun stored => key_items stored <> key_items key) l).
    { intros l Hl. eapply Forall_impl; [exact Hl |]. intros stored Hfalse Heq.
      simpl in Hfalse.
      assert (Htrue : matchesKey strictEquals None stored key = true)
        by (apply strict_matcher_items; split; assumption).
      congruence. }
    unfold createFindKeyIndex.
    destruct (UtilsFacts.findKeyIndex_from_spec strictEquals None keys key 0)
      as [[Hnone Hall] | (i & stored & Hi & Hl & Hs & He)].
    + left. split; [assumption | apply Hno; assumption].
    + right. exists i, stored. rewrite Z.add_0_l in Hi.
      apply strict_matcher_items in Hs. destruct Hs as [Hs _].
      repeat split; [assumption | assumption | assumption | apply Hno; assumption].
Qed.

Lemma findKeyIndex_strict_structural_witness :
  createFindKeyIndex strictEquals None [Fixtures.keyNaN] Fixtures.keyNaN = -1
  /\ createFindKeyIndex strictEquals None [Samples.keyB; Fixtures.keyD] Fixtures.keyD' = 1.
Proof.
  split.
  - destruct (findKeyIndex_strict_structural [Fixtures.keyNaN] Fixtures.keyNaN)
      as [Hnan _].
    apply Hnan. apply list_elem_of_here.
  - destruct (findKeyIndex_strict_structural [Samples.keyB; Fixtures.keyD] Fixtures.keyD')
      as [_ Hclean].
    destruct Hclean as [[_ Hnone] | (i & stored & Hfound & _)].
    + intros Hnan. repeat (apply elem_of_cons in Hnan as [Hnan | Hnan]; [discriminate |]).
      inversion Hnan.
    + exfalso. inversion Hnone as [|? ? _ Htail]; subst.
      inversion Htail as [|? ? Hd _]; subst. apply Hd. reflexivity.
    + reflexivity.
Defined.

(** X4. The index that [findExpirationIndex] returns is -1 or the position
    of a record of the list. *)
Theorem findExpirationIndex_in_bounds (expirations : list Expiration.t) (key : Key) :
  findExpirationIndex expirations key = -1
  \/ (0 <= findExpirationIndex expirations key < Z.of_nat (length expirations)
      /\ is_Some (expirations !! Z.to_nat (findExpirationIndex expirations key))).
Proof.
  unfold findExpirationIndex.
  destruct (UtilsFacts.findExpirationIndex_from_spec expirations key 0)
    as [[Hnone _] | (i & e & Hi & Hl & _)].
  - left. assumption.
  - right. rewrite Hi, Z.add_0_l, Nat2Z.id.
    pose proof (lookup_lt_Some _ _ _ Hl). split; [lia | eauto].
Qed.

Section Chains.

Variable World : Type.

Local Abbreviation Func := (Utils.Func World).
Local Abbreviation Any := (Utils.Any World).

Lemma fold_combined (rest : list Func) (acc : Func) :
  exists h : Func,
    fold_left (reducer combined) (map Fn rest) (Fn acc) = Fn h /\
    forall this arguments w,
      snd (h this arguments w) =
        snd (acc this arguments (callEach (rev rest) this arguments w)) /\
      fst (h this arguments w) =
        match rest with
        | [] => fst (acc this arguments w)
        | _ :: _ => VUndefined
        end.
Proof.
  revert acc. induction rest as [|g rest IH]; intros acc.
  - exists acc. split; [reflexivity |]. intros this arguments w. split; reflexivity.
  - destruct (IH (combined acc g)) as (h & Hfold & Hcall).
    exists h. split; [exact Hfold |]. intros this arguments w.
    destruct (Hcall this arguments w) as [Hsnd Hfst]. split.
    + rewrite Hsnd. simpl rev. unfold callEach. rewrite fold_left_app. reflexivity.
    + rewrite Hfst. destruct rest; reflexivity.
Qed.

(** X5. [combine] of functions alone gives a function that calls every one
    of them once on the same [this] and arguments, the last argument first
    and the first argument last; with two functions or more it returns
    [undefined]. *)
Theorem combine_calls_last_to_first (f : Func) (fs : list Func) :
  exists all : Func,
    combine (map Fn (f :: fs)) = Fn all /\
    forall this arguments w,
      snd (all this arguments w) = callEach (rev (f :: fs)) this arguments w /\
      (fs <> [] -> fst (all this arguments w) = VUndefined).
Proof.
  destruct (fold_combined fs f) as (h & Hfold & Hcall).
  exists h. split; [exact Hfold |]. intros this arguments w.
  destruct (Hcall this arguments w) as [Hsnd Hfst]. split.
  - rewrite Hsnd. simpl rev. unfold callEach. rewrite fold_left_app. reflexivity.
  - intros Hne. rewrite Hfst. destruct fs; [contradiction | reflexivity].
Qed.

Lemma fold_composed (rest : list Func) (g acc : Func) :
  exists h : Func,
    fold_left (reducer composed) (map Fn (g :: rest)) (Fn acc) = Fn h /\
    forall this arguments w,
      h this arguments w =
        acc VUndefined [fst (pipeline g rest this arguments w)]
          (snd (pipeline g rest this arguments w)).
Proof.
  revert g acc. induction rest as [|g' rest IH]; intros g acc.
  - exists (composed acc g). split; [reflexivity |]. intros this arguments w.
    unfold composed. simpl. destruct (g this arguments w). reflexivity.
  - destruct (IH g' (composed acc g)) as (h & Hfold & Hcall).
    exists h. split; [exact Hfold |]. intros this arguments w.
    rewrite Hcall. unfold composed.
    change (pipeline g (g' :: rest) this arguments w)
      with (let '(result, w1) := pipeline g' rest this arguments w in
            g VUndefined [result] w1).
    destruct (pipeline g' rest this arguments w) as [result w1]. simpl.
    destruct (g VUndefined [result] w1). reflexivity.
Qed.

(** X6. [compose] of functions alone is the right-to-left pipeline: the
    last function receives [this] and the arguments, and every function
    before it receives the result of the one after it as its only argument;
    the result of the first function is returned. *)
Theorem compose_right_to_left (f : Func) (fs : list Func) :
  exists all : Func,
    compose (map Fn (f :: fs)) = Fn all /\
    forall this arguments w, all this arguments w = pipeline f fs this arguments w.
Proof.
  destruct fs as [|g rest].
  - exists f. split; reflexivity.
  - destruct (fold_composed rest g f) as (h & Hfold & Hcall).
    exists h. split; [exact Hfold |]. intros this arguments w.
    rewrite Hcall.
    change (pipeline f (g :: rest) this arguments w)
      with (let '(result, w1) := pipeline g rest this arguments w in
            f VUndefined [result] w1).
    destruct (pipeline g rest this arguments w). reflexivity.
Qed.

Section Join.

Variable join : Func -> Func -> Func.

Lemma fold_skips_values (rest : list Any) (acc : Func) :
  fold_left (reducer join) rest (Fn acc) =
  fold_left (reducer join) (map Fn (functionsOf rest)) (Fn acc).
Proof.
  revert acc. induction rest as [|x rest IH]; intros acc; [reflexivity |].
  destruct x as [g | v]; simpl.
  - apply IH.
  - apply IH.
Qed.

Lemma fold_from_value (rest : list Any) (v : Value) :
  functionsOf rest <> [] ->
  fold_left (reducer join) rest (NotFn v) =
  match functionsOf rest with
  | [] => NotFn VUndefined
  | f :: fs => fold_left (reducer join) (map Fn fs) (Fn f)
  end.
Proof.
  revert v. induction rest as [|x rest IH]; intros v Hsome; [contradiction |].
  destruct x as [g | u]; simpl.
  - apply fold_skips_values.
  - apply IH. exact Hsome.
Qed.

Lemma reduce_functions_only (arguments : list Any) :
  functionsOf arguments <> [] ->
  match arguments with
  | [] => NotFn VUndefined
  | first :: rest => reduce World (reducer join) first rest
  end =
  match map Fn (functionsOf arguments) with
  | [] => NotFn VUndefined
  | first :: rest => reduce World (reducer join) first rest
  end.
Proof.
  intros Hsome. destruct arguments as [|[f | v] rest]; [contradiction | |].
  - simpl. apply fold_skips_values.
  - simpl in *. unfold reduce. rewrite (fold_from_value rest v Hsome).
    destruct (functionsOf rest); [contradiction | reflexivity].
Qed.

End Join.

(** X7. When at least one argument is a function, the arguments that are
    not functions are ignored: [combine] and [compose] give what they give
    for the function arguments alone, in the same order. *)
Theorem values_among_arguments_ignored (arguments : list Any) :
  functionsOf arguments <> [] ->
  combine arguments = combine (map Fn (functionsOf arguments)) /\
  compose arguments = compose (map Fn (functionsOf arguments)).
Proof.
  intros Hsome. split.
  - apply (reduce_functions_only combined arguments Hsome).
  - apply (reduce_functions_only composed arguments Hsome).
Qed.

End Chains.

Lemma values_among_arguments_ignored_witness :
  combine [NotFn VNull; Fn (Samples.logger "a"); NotFn (VNum 1); Fn (Samples.logger "b")] =
    combine [Fn (Samples.logger "a"); Fn (Samples.logger "b")]
  /\ compose [NotFn VNull; Fn (Samples.logger "a"); NotFn (VNum 1); Fn (Samples.logger "b")] =
    compose [Fn (Samples.logger "a"); Fn (Samples.logger "b")].
Proof.
  apply (values_among_arguments_ignored (list string)
           [NotFn VNull; Fn (Samples.logger "a"); NotFn (VNum 1); Fn (Samples.logger "b")]).
  simpl. discriminate.
Defined.

Section MergeMore.

Variable World : Type.
Variable DEFAULT_OPTIONS : Options World.

(** X8. Apart from the four combined fields, a merged options object holds
    for every property the value of [newOptions] when [newOptions] has that
    property (whatever the value, [undefined] included) and the value of
    [originalOptions] otherwise. *)
Theorem mergeOptions_new_overrides (fresh : nat)
    (originalOptions newOptions : Options World) (name : string) :
  options_ref newOptions <> options_ref DEFAULT_OPTIONS ->
  name <> "onCacheAdd"%string -> name <> "onCacheChange"%string ->
  name <> "onCacheHit"%string -> name <> "transformArgs"%string ->
  prop (mergeOptions DEFAULT_OPTIONS fresh originalOptions newOptions) name =
    match options_props newOptions !! name with
    | Some value => value
    | None => prop originalOptions name
    end.
Proof.
  intros Hne Hadd Hchange Hhit Htransform.
  unfold mergeOptions. apply Nat.eqb_neq in Hne. rewrite Hne.
  unfold prop, assign3. simpl.
  rewrite lookup_union_r.
  - destruct (options_props newOptions !! name) as [value |] eqn:Hnew.
    + erewrite lookup_union_Some_l by exact Hnew. reflexivity.
    + rewrite lookup_union_r by exact Hnew. reflexivity.
  - repeat (rewrite lookup_insert_ne by congruence). apply lookup_empty.
Qed.

(** X9. Merging a third options object into the merge of two gives, when
    all three supply a callback of one kind, a callback that calls the
    third's, then the second's, then the first's; when all three supply
    [transformArgs], a transform that applies the third's, then the
    second's to its result, then the first's to that. *)
Theorem mergeOptions_twice (fresh fresh' : nat)
    (firstOptions secondOptions thirdOptions : Options World) :
  options_ref secondOptions <> options_ref DEFAULT_OPTIONS ->
  options_ref thirdOptions <> options_ref DEFAULT_OPTIONS ->
  (forall (kind : string) (f1 f2 f3 : Func World),
      kind = "onCacheAdd"%string \/ kind = "onCacheChange"%string
        \/ kind = "onCacheHit"%string ->
      prop firstOptions kind = Fn f1 ->
      prop secondOptions kind = Fn f2 ->
      prop thirdOptions kind = Fn f3 ->
      exists all : Func World,
        prop (mergeOptions DEFAULT_OPTIONS fresh'
                (mergeOptions DEFAULT_OPTIONS fresh firstOptions secondOptions)
                thirdOptions) kind = Fn all /\
        forall this arguments w,
          all this arguments w =
            (VUndefined, callEach [f3; f2; f1] this arguments w))
  /\ (forall f1 f2 f3 : Func World,
        prop firstOptions "transformArgs" = Fn f1 ->
        prop secondOptions "transformArgs" = Fn f2 ->
        prop thirdOptions "transformArgs" = Fn f3 ->
        exists all : Func World,
          prop (mergeOptions DEFAULT_OPTIONS fresh'
                  (mergeOptions DEFAULT_OPTIONS fresh firstOptions secondOptions)
                  thirdOptions) "transformArgs" = Fn all /\
          forall this arguments w,
            all this arguments w = pipeline f1 [f2; f3] this arguments w).
Proof.
  intros Hsecond Hthird.
  destruct (UtilsFacts.mergeOptions_fields World DEFAULT_OPTIONS fresh
              firstOptions secondOptions Hsecond) as (Hadd & Hchange & Hhit & Htransform).
  destruct (UtilsFacts.mergeOptions_fields World DEFAULT_OPTIONS fresh'
              (mergeOptions DEFAULT_OPTIONS fresh firstOptions secondOptions)
              thirdOptions Hthird) as (Hadd' & Hchange' & Hhit' & Htransform').
  split.
  - intros kind f1 f2 f3 Hkind H1 H2 H3.
    exists (combined (combined f1 f2) f3). split.
    + destruct Hkind as [-> | [-> | ->]];
        [rewrite Hadd', Hadd | rewrite Hchange', Hchange | rewrite Hhit', Hhit];
        rewrite H1, H2, H3; reflexivity.
    + intros this arguments w. reflexivity.
  - intros f1 f2 f3 H1 H2 H3.
    exists (composed (composed f1 f2) f3). split.
    + rewrite Htransform', Htransform, H1, H2, H3. reflexivity.
    + intros this arguments w. unfold composed. simpl.
      destruct (f3 this arguments w) as [r3 w3].
      destruct (f2 VUndefined [r3] w3) as [r2 w2]. reflexivity.
Qed.

End MergeMore.

Lemma mergeOptions_new_overrides_witness :
  prop (mergeOptions Samples.defaultOptions 9 Samples.originalOptions Fixtures.thirdOptions)
    "maxAge" = NotFn (VNum 1000)
  /\ prop (mergeOptions Samples.defaultOptions 9 Fixtures.thirdOptions Samples.newOptions)
       "maxAge" = NotFn (VNum 1000).
Proof.
  split.
  - apply (mergeOptions_new_overrides (list string) Samples.defaultOptions 9
             Samples.originalOptions Fixtures.thirdOptions "maxAge");
      [simpl; lia | discriminate | discriminate | discriminate | discriminate].
  - apply (mergeOptions_new_overrides (list string) Samples.defaultOptions 9
             Fixtures.thirdOptions Samples.newOptions "maxAge");
      [simpl; lia | discriminate | discriminate | discriminate | discriminate].
Defined.

Lemma mergeOptions_twice_witness :
  exists all : Func (list string),
    prop (mergeOptions Samples.defaultOptions 10
            (mergeOptions Samples.defaultOptions 9 Samples.originalOptions Samples.newOptions)
            Fixtures.thirdOptions) "onCacheAdd" = Fn all /\
    all VUndefined [] [] = (VUndefined, ["third"; "new"; "original"]%string).
Proof.
  destruct (mergeOptions_twice (list string) Samples.defaultOptions 9 10
              Samples.originalOptions Samples.newOptions Fixtures.thirdOptions)
    as [Hcallbacks _].
  - simpl. lia.
  - simpl. lia.
  - destruct (Hcallbacks "onCacheAdd" (Samples.logger "original") (Samples.logger "new")
                (Samples.logger "third")) as (all & Hmerged & Hcall).
    + left. reflexivity.
    + reflexivity.
    + reflexivity.
    + reflexivity.
    + exists all. split; [exact Hmerged | rewrite Hcall; reflexivity].
Defined.

End UtilsExtra.

(** ** Further properties of the instance methods *)

Module InstanceExtra.

Import Instance Reference InstanceFacts.

Lemma ForallOrdPairs_sublist {A : Type} (R : A -> A -> Prop) (l1 l2 : list A) :
  l1 `sublist_of` l2 -> ForallOrdPairs R l2 -> ForallOrdPairs R l1.
Proof.
  induction 1 as [|x l1 l2 Hsub IH | x l1 l2 Hsub IH]; intros Hpairs.
  - constructor.
  - inversion Hpairs as [|? ? Hhead Htail]; subst. constructor.
    + rewrite Forall_forall in *. intros y Hy.
      apply Hhead. eapply elem_of_sublist; eassumption.
    + apply IH. assumption.
  - inversion Hpairs; subst. apply IH. assumption.
Qed.

Lemma removelast_sublist {A : Type} (l : list A) : removelast l `sublist_of` l.
Proof. rewrite removelast_firstn_len. apply sublist_take. Qed.

Section More.

Variable installed : Options.

Local Abbreviation matches :=
  (Utils.matchesKey (isEqual installed) (isMatchingKey installed)).
Local Abbreviation saved := (transformed installed).

(** [remove] of a key that no stored key matches. *)
Lemma remove_absent (key : Key) (moized : Moized) :
  Forall (fun k => matches k (saved key) = false) (keys (cache moized)) ->
  remove installed key moized =
    {| returned := RValue VUndefined; after := moized; calls := [] |}.
Proof.
  intros Habsent. apply absent_iff in Habsent.
  apply negb_true_iff in Habsent.
  unfold remove. rewrite Habsent. reflexivity.
Qed.

(** [remove] of a key that a stored key matches: the first such key goes. *)
Lemma remove_present (key : Key) (moized : Moized) :
  Exists (fun k => matches k (saved key) = true) (keys (cache moized)) ->
  exists (i : nat) (stored : Key),
    keys (cache moized) !! i = Some stored /\
    matches stored (saved key) = true /\
    Forall (fun k => matches k (saved key) = false) (take i (keys (cache moized))) /\
    remove installed key moized =
      let moized' :=
        withCache moized
          {| keys := delete i (keys (cache moized));
             values := delete i (values (cache moized)) |} in
      {| returned := RValue VUndefined;
         after := moized';
         calls := [onCacheChange (cache moized') (options moized') moized'] |}.
Proof.
  intros Hpresent. pose proof Hpresent as Hguard.
  apply present_iff in Hguard. apply negb_false_iff in Hguard.
  unfold remove. rewrite Hguard.
  unfold findKeyIndex, Utils.createFindKeyIndex.
  destruct (UtilsFacts.findKeyIndex_from_spec (isEqual installed) (isMatchingKey installed)
              (keys (cache moized)) (saved key) 0)
    as [[_ Hall] | (i & stored & Hi & Hl & Hs & He)].
  - exfalso. apply Exists_exists in Hpresent. destruct Hpresent as (k & Hin & Hk).
    rewrite Forall_forall in Hall. specialize (Hall k Hin). simpl in Hall. congruence.
  - exists i, stored. rewrite Hi, Z.add_0_l, Nat2Z.id.
    repeat split; assumption.
Qed.

(** X10. [add], [clear], [has], [remove] and the other methods that do not
    call the memoized function keep the keys and the values of the cache at
    the same length. *)
Theorem sequences_stay_aligned (getStats : option string -> StatsProfile)
    (apply : Key -> Moized -> Outcome) (method : Method)
    (key : Key) (value : Value) (moized : Moized) :
  method <> Get ->
  aligned (cache moized) ->
  aligned (cache (after (run getStats apply installed method key value moized))).
Proof.
  intros Hmethod Haligned. unfold aligned in *.
  destruct method; try contradiction; simpl; try assumption.
  - destruct (absent_or_present installed (saved key) (keys (cache moized)))
      as [Habsent | Hpresent].
    + rewrite (add_absent installed key value moized Habsent). simpl.
      destruct (reaches _ _); simpl.
      * rewrite !length_removelast. congruence.
      * congruence.
    + rewrite (add_present installed key value moized Hpresent). assumption.
  - reflexivity.
  - destruct (absent_or_present installed (saved key) (keys (cache moized)))
      as [Habsent | Hpresent].
    + rewrite (remove_absent key moized Habsent). assumption.
    + destruct (remove_present key moized Hpresent) as (i & stored & Hl & _ & _ & ->).
      simpl. pose proof (lookup_lt_Some _ _ _ Hl) as Hlt.
      rewrite !length_delete; [congruence | | eauto].
      apply lookup_lt_is_Some. lia.
Qed.

Lemma add_keeps_distinct (key : Key) (value : Value) (moized : Moized) :
  distinctKeys installed (keys (cache moized)) ->
  distinctKeys installed (keys (cache (after (add installed key value moized)))).
Proof.
  unfold distinctKeys. intros Hdistinct.
  destruct (absent_or_present installed (saved key) (keys (cache moized)))
    as [Habsent | Hpresent].
  - rewrite (add_absent installed key value moized Habsent). simpl.
    assert (Hsub : keys (if reaches (base.size (cache moized)) (maxSize (options moized))
                         then {| keys := removelast (keys (cache moized));
                                 values := removelast (values (cache moized)) |}
                         else cache moized) `sublist_of` keys (cache moized)).
    { destruct (reaches _ _); simpl; [apply removelast_sublist | reflexivity]. }
    constructor.
    + rewrite Forall_forall in *. intros older Holder.
      apply Habsent. eapply elem_of_sublist; eassumption.
    + eapply ForallOrdPairs_sublist; eassumption.
  - rewrite (add_present installed key value moized Hpresent). assumption.
Qed.

(** X11. If no stored key matches a key stored in front of it, that is
    still so after [add] and after [remove]: neither creates a duplicate. *)
Theorem keys_stay_distinct (key : Key) (value : Value) (moized : Moized) :
  distinctKeys installed (keys (cache moized)) ->
  distinctKeys installed (keys (cache (after (add installed key value moized)))) /\
  distinctKeys installed (keys (cache (after (remove installed key moized)))).
Proof.
  intros Hdistinct. split; [apply add_keeps_distinct; assumption |].
  destruct (absent_or_present installed (saved key) (keys (cache moized)))
    as [Habsent | Hpresent].
  - rewrite (remove_absent key moized Habsent). assumption.
  - destruct (remove_present key moized Hpresent) as (i & stored & _ & _ & _ & ->).
    simpl. eapply ForallOrdPairs_sublist; [apply sublist_delete | exact Hdistinct].
Qed.

(** X12. After any sequence of [add] calls on an empty cache, no stored key
    matches a key stored in front of it: a key that matches a stored one is
    never stored a second time. *)
Theorem addAll_distinct (entries : list (Key * Value)) (moized : Moized) :
  keys (cache moized) = [] ->
  distinctKeys installed (keys (cache (addAll installed entries moized))).
Proof.
  intros Hempty.
  assert (Hstart : distinctKeys installed (keys (cache moized))).
  { rewrite Hempty. constructor. }
  clear Hempty. revert moized Hstart.
  induction entries as [|[key value] entries IH]; intros moized Hstart.
  - exact Hstart.
  - unfold addAll in *. simpl. apply IH. apply add_keeps_distinct. exact Hstart.
Qed.

Lemma has_true_iff (key : Key) (moized : Moized) :
  returned (has installed key moized) = RValue (VBool true) <->
  Exists (fun k => matches k (saved key) = true) (keys (cache moized)).
Proof.
  rewrite <- present_iff. unfold has. simpl.
  destruct (truthy _); simpl; split; intros H; try reflexivity; try discriminate.
Qed.

(** X13. [has] answers [true] exactly when some stored key matches the
    (transformed) key, and that is exactly when [add] of the key does
    nothing; it changes nothing and calls no callback. *)
Theorem has_agrees_with_add (key : Key) (value : Value) (moized : Moized) :
  (returned (has installed key moized) = RValue (VBool true) <->
   Exists (fun k => matches k (saved key) = true) (keys (cache moized)))
  /\ (returned (has installed key moized) = RValue (VBool true) <->
      calls (add installed key value moized) = [])
  /\ (returned (has installed key moized) = RValue (VBool false) <->
      length (calls (add installed key value moized)) = 2%nat)
  /\ after (has installed key moized) = moized
  /\ calls (has installed key moized) = [].
Proof.
  split; [apply has_true_iff |].
  destruct (absent_or_present installed (saved key) (keys (cache moized)))
    as [Habsent | Hpresent].
  - assert (Hfalse : returned (has installed key moized) = RValue (VBool false)).
    { apply absent_iff in Habsent. apply negb_true_iff in Habsent.
      unfold has. simpl. rewrite Habsent. reflexivity. }
    rewrite Hfalse, (add_absent installed key value moized Habsent). simpl.
    repeat split; try discriminate; try reflexivity.
  - pose proof Hpresent as Htrue. apply has_true_iff in Htrue.
    rewrite Htrue, (add_present installed key value moized Hpresent). simpl.
    repeat split; try discriminate; try reflexivity.
Qed.


(** X15. [remove] of a key that no stored key matches changes nothing and
    calls no callback. *)
Theorem remove_missing_is_noop (key : Key) (moized : Moized) :
  Forall (fun k => matches k (saved key) = false) (keys (cache moized)) ->
  after (remove installed key moized) = moized /\
  calls (remove installed key moized) = [] /\
  returned (remove installed key moized) = RValue VUndefined.
Proof.
  intros Habsent. rewrite (remove_absent key moized Habsent). repeat split.
Qed.

(** X16. [remove] of a key that some stored key matches deletes the first
    stored key that matches, and the value at the same index, and nothing
    else; the size drops by one and [onCacheChange] is called once, with
    the cache after the deletion. *)
Theorem remove_deletes_first_match (key : Key) (moized : Moized) :
  Exists (fun k => matches k (saved key) = true) (keys (cache moized)) ->
  exists (i : nat) (stored : Key),
    keys (cache moized) !! i = Some stored /\
    matches stored (saved key) = true /\
    Forall (fun k => matches k (saved key) = false) (take i (keys (cache moized))) /\
    keys (cache (after (remove installed key moized))) = delete i (keys (cache moized)) /\
    values (cache (after (remove installed key moized))) =
      delete i (values (cache moized)) /\
    S (base.size (cache (after (remove installed key moized)))) = base.size (cache moized) /\
    calls (remove installed key moized) =
      [onCacheChange (cache (after (remove installed key moized))) (options moized)
         (after (remove installed key moized))].
Proof.
  intros Hpresent.
  destruct (remove_present key moized Hpresent) as (i & stored & Hl & Hs & He & ->).
  exists i, stored. simpl. repeat split; try assumption.
  unfold base.size, size. simpl.
  rewrite length_delete by eauto.
  pose proof (lookup_lt_Some _ _ _ Hl). lia.
Qed.


(** X18. [clear] empties the cache: afterwards the size is 0 and [has]
    answers [false] for every key; it calls [onCacheChange] once, with the
    empty cache, also when the cache was empty already, and leaves the
    expirations as they were. *)
Theorem clear_empties (moized : Moized) :
  base.size (cache (after (clear moized))) = 0%nat
  /\ values (cache (after (clear moized))) = []
  /\ (forall key : Key,
        returned (has installed key (after (clear moized))) = RValue (VBool false))
  /\ calls (clear moized) =
       [onCacheChange {| keys := []; values := [] |} (options moized) (after (clear moized))]
  /\ expirations (after (clear moized)) = expirations moized.
Proof. repeat split. Qed.

(** X19. [get] of a key that no stored key matches returns [undefined]
    without calling the memoized function; [get] of a key that some stored
    key matches calls the memoized function with the first stored key that
    matches (the stored array, not the one given) and gives what it gives. *)
Theorem get_calls_with_stored_key (apply : Key -> Moized -> Outcome)
    (key : Key) (moized : Moized) :
  (Forall (fun k => matches k (saved key) = false) (keys (cache moized)) ->
   get apply installed key moized =
     {| returned := RValue VUndefined; after := moized; calls := [] |})
  /\ (Exists (fun k => matches k (saved key) = true) (keys (cache moized)) ->
      exists (i : nat) (stored : Key),
        keys (cache moized) !! i = Some stored /\
        matches stored (saved key) = true /\
        Forall (fun k => matches k (saved key) = false) (take i (keys (cache moized))) /\
        get apply installed key moized = apply stored moized).
Proof.
  split.
  - intros Habsent. apply absent_iff in Habsent. apply negb_true_iff in Habsent.
    unfold get. rewrite Habsent. reflexivity.
  - intros Hpresent. pose proof Hpresent as Hguard.
    apply present_iff in Hguard. apply negb_false_iff in Hguard.
    unfold get. rewrite Hguard.
    unfold findKeyIndex, Utils.createFindKeyIndex.
    destruct (UtilsFacts.findKeyIndex_from_spec (isEqual installed) (isMatchingKey installed)
                (keys (cache moized)) (saved key) 0)
      as [[_ Hall] | (i & stored & Hi & Hl & Hs & He)].
    + exfalso. apply Exists_exists in Hpresent. destruct Hpresent as (k & Hin & Hk).
      rewrite Forall_forall in Hall. specialize (Hall k Hin). simpl in Hall. congruence.
    + exists i, stored. rewrite Hi, Z.add_0_l, Nat2Z.id, Hl.
      repeat split; assumption.
Qed.

Lemma unshift_after_pop {A : Type} (limit : nat) (x : A) (l : list A) (n : nat) :
  (1 <= limit)%nat ->
  n = length (take limit l) ->
  x :: (if (limit <=? n)%nat then removelast (take limit l) else take limit l) =
  take limit (x :: l).
Proof.
  intros Hpos ->. destruct limit as [|m]; [lia |].
  change (take (S m) (x :: l)) with (x :: take m l). f_equal.
  rewrite length_take.
  destruct (Nat.leb_spec (S m) (min (S m) (length l))) as [Hfull | Hroom].
  - rewrite removelast_firstn_len, length_take, take_take.
    f_equal. lia.
  - rewrite (take_ge l (S m)) by lia. rewrite take_ge by lia. reflexivity.
Qed.

Lemma addAll_history (limit : nat) (entries : list (Key * Value)) (moized : Moized)
    (storedKeys : list Key) (storedValues : list Value) :
  (1 <= limit)%nat ->
  maxSize (options moized) = MaxNum limit ->
  keys (cache moized) = take limit storedKeys ->
  values (cache moized) = take limit storedValues ->
  length storedKeys = length storedValues ->
  Forall (fun entry => Forall (fun k => matches k (saved (fst entry)) = false) storedKeys)
    entries ->
  ForallOrdPairs (fun earlier later =>
                    matches (saved (fst earlier)) (saved (fst later)) = false) entries ->
  keys (cache (addAll installed entries moized)) =
    take limit (rev (map (fun entry => saved (fst entry)) entries) ++ storedKeys) /\
  values (cache (addAll installed entries moized)) =
    take limit (rev (map snd entries) ++ storedValues).
Proof.
  intros Hpos. revert moized storedKeys storedValues.
  induction entries as [|[key value] entries IH];
    intros moized storedKeys storedValues Hmax Hkeys Hvalues Hlen Hstored Hpairs.
  - simpl. split; assumption.
  - inversion Hstored as [|? ? Hhead Htail]; subst.
    inversion Hpairs as [|? ? Hfirst Hrest]; subst.
    simpl in Hhead.
    assert (Habsent : Forall (fun k => matches k (saved key) = false) (keys (cache moized))).
    { rewrite Hkeys. apply Forall_take. exact Hhead. }
    pose proof (add_absent installed key value moized Habsent) as Hadd.
    rewrite Hmax in Hadd. simpl in Hadd.
    unfold addAll in *. simpl fold_left. rewrite Hadd. simpl after.
    destruct (IH (withCache moized
                    {| keys := saved key ::
                         keys (if (limit <=? base.size (cache moized))%nat
                               then {| keys := removelast (keys (cache moized));
                                       values := removelast (values (cache moized)) |}
                               else cache moized);
                       values := value ::
                         values (if (limit <=? base.size (cache moized))%nat
                                 then {| keys := removelast (keys (cache moized));
                                         values := removelast (values (cache moized)) |}
                                 else cache moized) |})
                (saved key :: storedKeys) (value :: storedValues))
      as [Hk Hv].
    + exact Hmax.
    + simpl. rewrite <- (unshift_after_pop limit (saved key) storedKeys
                          (base.size (cache moized)) Hpos).
      * rewrite <- Hkeys. destruct (limit <=? _)%nat; reflexivity.
      * unfold base.size, size. rewrite Hkeys. reflexivity.
    + simpl. rewrite <- (unshift_after_pop limit value storedValues
                          (base.size (cache moized)) Hpos).
      * rewrite <- Hvalues. destruct (limit <=? _)%nat; reflexivity.
      * unfold base.size, size. rewrite Hkeys, !length_take, Hlen. reflexivity.
    + simpl. congruence.
    + rewrite Forall_forall in Htail, Hfirst.
      apply Forall_forall. intros later Hin.
      constructor; [apply (Hfirst later Hin) | apply (Htail later Hin)].
    + exact Hrest.
    + rewrite Hk, Hv. simpl. rewrite <- !app_assoc. split; reflexivity.
Qed.

(** X20. Under [maxSize = N] with [N >= 1], after a sequence of [add] calls
    on an empty cache whose (transformed) keys pairwise do not match, the
    cache holds exactly the [N] entries added last, newest first: every
    eviction took the entry added longest ago. *)
Theorem addAll_keeps_newest (limit : nat) (entries : list (Key * Value)) (moized : Moized) :
  (1 <= limit)%nat ->
  maxSize (options moized) = MaxNum limit ->
  cache moized = {| keys := []; values := [] |} ->
  ForallOrdPairs (fun earlier later =>
                    matches (saved (fst earlier)) (saved (fst later)) = false) entries ->
  cache (addAll installed entries moized) =
    {| keys := take limit (rev (map (fun entry => saved (fst entry)) entries));
       values := take limit (rev (map snd entries)) |}.
Proof.
  intros Hpos Hmax Hempty Hpairs.
  destruct (addAll_history limit entries moized [] [] Hpos Hmax) as [Hk Hv].
  - rewrite Hempty, take_nil. reflexivity.
  - rewrite Hempty, take_nil. reflexivity.
  - reflexivity.
  - apply Forall_forall. intros entry _. constructor.
  - exact Hpairs.
  - rewrite app_nil_r in Hk, Hv.
    destruct (cache (addAll installed entries moized)) as [ks vs].
    simpl in *. subst. reflexivity.
Qed.

End More.

Lemma sequences_stay_aligned_witness :
  aligned (cache (after (run (fun _ => {| stats_calls := 0; stats_hits := 0 |})
                           (fun _ m => {| returned := RValue VUndefined; after := m;
                                          calls := [] |})
                           (Samples.strictOptions (MaxNum 3)) Remove Samples.keyB VUndefined
                           (Fixtures.threeEntries (MaxNum 3))))).
Proof.
  apply sequences_stay_aligned.
  - discriminate.
  - reflexivity.
Defined.

Lemma keys_stay_distinct_witness :
  distinctKeys (Samples.strictOptions (MaxNum 3))
    (keys (cache (after (add (Samples.strictOptions (MaxNum 3)) Fixtures.keyD (VNum 4)
                           (Fixtures.threeEntries (MaxNum 3))))))
  /\ distinctKeys (Samples.strictOptions (MaxNum 3))
       (keys (cache (after (remove (Samples.strictOptions (MaxNum 3)) Fixtures.keyD
                              (Fixtures.threeEntries (MaxNum 3)))))).
Proof.
  apply keys_stay_distinct. repeat constructor.
Defined.

Lemma addAll_distinct_witness :
  distinctKeys (Samples.strictOptions MaxUndefined)
    (keys (cache (addAll (Samples.strictOptions MaxUndefined)
                    [(Samples.keyA, VNum 1); (Samples.keyA', VNum 2); (Samples.keyB, VNum 3)]
                    (Samples.fresh MaxUndefined)))).
Proof.
  apply addAll_distinct. reflexivity.
Defined.


Lemma remove_missing_is_noop_witness :
  after (remove (Samples.strictOptions (MaxNum 3)) Fixtures.keyD
           (Fixtures.threeEntries (MaxNum 3))) = Fixtures.threeEntries (MaxNum 3)
  /\ calls (remove (Samples.strictOptions (MaxNum 3)) Fixtures.keyD
              (Fixtures.threeEntries (MaxNum 3))) = []
  /\ returned (remove (Samples.strictOptions (MaxNum 3)) Fixtures.keyD
                 (Fixtures.threeEntries (MaxNum 3))) = RValue VUndefined.
Proof.
  apply remove_missing_is_noop. repeat constructor.
Defined.

Lemma remove_deletes_first_match_witness :
  keys (cache (after (remove (Samples.strictOptions (MaxNum 3)) Samples.keyB
                        (Fixtures.threeEntries (MaxNum 3))))) = [Samples.keyC; Samples.keyA]
  /\ values (cache (after (remove (Samples.strictOptions (MaxNum 3)) Samples.keyB
                             (Fixtures.threeEntries (MaxNum 3))))) = [VNum 3; VNum 1].
Proof.
  destruct (remove_deletes_first_match (Samples.strictOptions (MaxNum 3)) Samples.keyB
              (Fixtures.threeEntries (MaxNum 3)))
    as (i & stored & _ & _ & _ & Hkeys & Hvalues & _).
  - apply Exists_cons_tl, Exists_cons_hd. reflexivity.
  - split; reflexivity.
Defined.


Lemma addAll_keeps_newest_witness :
  cache (addAll (Samples.strictOptions (MaxNum 2))
           [(Samples.keyA, VNum 1); (Samples.keyB, VNum 2); (Samples.keyC, VNum 3);
            (Fixtures.keyD, VNum 4)]
           (Samples.fresh (MaxNum 2))) =
    {| keys := [Fixtures.keyD; Samples.keyC]; values := [VNum 4; VNum 3] |}.
Proof.
  apply (addAll_keeps_newest (Samples.strictOptions (MaxNum 2)) 2
           [(Samples.keyA, VNum 1); (Samples.keyB, VNum 2); (Samples.keyC, VNum 3);
            (Fixtures.keyD, VNum 4)]
           (Samples.fresh (MaxNum 2))).
  - lia.
  - reflexivity.
  - reflexivity.
  - repeat constructor.
Defined.

End InstanceExtra.

(** ** Properties of the augmented instance *)

Module PropertiesExtra.

Import Instance Properties InstanceFacts.

Lemma orElse_cases (a : option string) (b : string) :
  b <> ""%string ->
  orElse a b <> ""%string /\
  (a = Some (orElse a b) \/ ((a = None \/ a = Some ""%string) /\ orElse a b = b)).
Proof.
  intros Hb. unfold orElse, truthyString. destruct a as [s |].
  - destruct (String.eqb_spec s ""); simpl.
    + subst. split; [assumption | right; split; [right |]; reflexivity].
    + split; [assumption | left; reflexivity].
  - split; [assumption | right; split; [left |]; reflexivity].
Qed.

(** X21. The display name given to a memoized React component is
    [Moized(X)] where [X] is never empty: it is the component's
    [displayName] when that is a non-empty string, else its [name] when
    that is not empty, else [Component]; an empty [displayName] or [name]
    counts as missing. *)
Theorem displayName_never_empty (originalFunction : OriginalFunction) :
  exists shown : string,
    displayName (reactProperties originalFunction) = ("Moized(" ++ shown ++ ")")%string /\
    shown <> ""%string /\
    (fn_displayName originalFunction = Some shown
     \/ ((fn_displayName originalFunction = None \/
          fn_displayName originalFunction = Some ""%string) /\
         (fn_name originalFunction = shown
          \/ (fn_name originalFunction = ""%string /\ shown = "Component"%string)))).
Proof.
  exists (shownName originalFunction). split; [reflexivity |].
  unfold shownName.
  destruct (orElse_cases (Some (fn_name originalFunction)) "Component")
    as [Hinner Hinner_cases]; [discriminate |].
  destruct (orElse_cases (fn_displayName originalFunction)
              (orElse (Some (fn_name originalFunction)) "Component") Hinner)
    as [Houter Houter_cases].
  split; [assumption |].
  destruct Houter_cases as [Hdisplay | [Hmissing Heq]].
  - left. assumption.
  - right. split; [assumption |]. rewrite Heq.
    destruct Hinner_cases as [Hname | [[Hnone | Hempty] Hdefault]].
    + left. congruence.
    + discriminate.
    + right. split; [congruence | assumption].
Qed.

(** X22. On an augmented instance, [add] matches and transforms keys with
    the options of the memoization engine, captured when the methods were
    installed, but takes the size bound from the moize options, and hands
    the moize options to the callbacks: [addInstanceProperties] has
    redefined [moized.options] by then. *)
Theorem augmented_add_reads_moize_options (moized : Memoized)
    (configuration : Configuration) (key : Key) (value : Value) :
  Forall (fun k =>
            Utils.matchesKey (isEqual (engineOptions moized))
              (isMatchingKey (engineOptions moized)) k
              (transformed (engineOptions moized) key) = false)
    (keys (engineCache moized)) ->
  keys (cache (after (add (captured (augmentMoizeInstance moized configuration)) key value
                        (instance (augmentMoizeInstance moized configuration))))) =
    transformed (engineOptions moized) key ::
      (if reaches (length (keys (engineCache moized)))
            (maxSize (methodOptions (cfg_options configuration)))
       then removelast (keys (engineCache moized))
       else keys (engineCache moized))
  /\ (exists c m,
        calls (add (captured (augmentMoizeInstance moized configuration)) key value
                 (instance (augmentMoizeInstance moized configuration))) =
          [onCacheAdd c (methodOptions (cfg_options configuration)) m;
           onCacheChange c (methodOptions (cfg_options configuration)) m])
  /\ _microMemoizeOptions (augmentMoizeInstance moized configuration) = engineOptions moized
  /\ expirations (instance (augmentMoizeInstance moized configuration)) =
       cfg_expirations configuration.
Proof.
  intros Habsent.
  pose proof (add_absent (engineOptions moized) key value
                (instance (augmentMoizeInstance moized configuration)) Habsent) as Hadd.
  simpl in Hadd. unfold augmentMoizeInstance. simpl captured. simpl instance.
  rewrite Hadd. simpl.
  split; [| split; [| split]]; try reflexivity.
  - destruct (reaches _ _); reflexivity.
  - eexists _, _. reflexivity.
Qed.

Lemma augmented_add_reads_moize_options_witness :
  keys (cache (after (add
                 (captured (augmentMoizeInstance
                    {| engineCache := {| keys := [Samples.keyA]; values := [VNum 1] |};
                       engineOptions := Samples.strictOptions (MaxNum 1) |}
                    {| cfg_expirations := [];
                       cfg_options := {| isReact := false;
                                         methodOptions := Samples.strictOptions MaxInfinity |};
                       cfg_originalFunction := Fixtures.anonymous |}))
                 Samples.keyB (VNum 2)
                 (instance (augmentMoizeInstance
                    {| engineCache := {| keys := [Samples.keyA]; values := [VNum 1] |};
                       engineOptions := Samples.strictOptions (MaxNum 1) |}
                    {| cfg_expirations := [];
                       cfg_options := {| isReact := false;
                                         methodOptions := Samples.strictOptions MaxInfinity |};
                       cfg_originalFunction := Fixtures.anonymous |}))))) =
    [Samples.keyB; Samples.keyA].
Proof.
  destruct (augmented_add_reads_moize_options
              {| engineCache := {| keys := [Samples.keyA]; values := [VNum 1] |};
                 engineOptions := Samples.strictOptions (MaxNum 1) |}
              {| cfg_expirations := [];
                 cfg_options := {| isReact := false;
                                   methodOptions := Samples.strictOptions MaxInfinity |};
                 cfg_originalFunction := Fixtures.anonymous |}
              Samples.keyB (VNum 2)) as [Hkeys _].
  - repeat constructor.
  - rewrite Hkeys. reflexivity.
Defined.

End PropertiesExtra.
